(** * hannk interpreter: tensors, storage and the op graph

    A shallow embedding of [apps/hannk/interpreter/model.cpp]: the
    [TensorStorage] and [Tensor] classes, and the graph operations of
    [Model] (copy construction and the two [insert] overloads).

    C++ objects reached through [std::shared_ptr] live in an explicit
    store and are named by their address; an [assert] that does not hold
    aborts the operation. *)

From Stdlib Require Import ZArith Lia.
From stdpp Require Import base decidable option list gmap strings.

Local Open Scope Z_scope.

(** ** Machine integers *)

(** The C++ [int] is a 32-bit two's complement integer. *)
Definition int_min : Z := - 2 ^ 31.
Definition int_max : Z := 2 ^ 31 - 1.

Definition in_int (z : Z) : Prop := int_min <= z <= int_max.

(** The value an [int] holds after an arithmetic result [z] is stored. *)
Definition wrap (z : Z) : Z := (z + 2 ^ 31) mod 2 ^ 32 - 2 ^ 31.

(** ** Failure *)

(** [AssertionFailure] is a failed [assert]; [InvalidAccess] is the use
    of a dimension index or of an address that does not exist. *)
Inductive error : Type :=
  | AssertionFailure
  | InvalidAccess.

Inductive res (A : Type) : Type :=
  | Done (a : A)
  | Fail (e : error).
Arguments Done {A} a.
Arguments Fail {A} e.

Definition res_bind {A B : Type} (m : res A) (k : A -> res B) : res B :=
  match m with
  | Done a => k a
  | Fail e => Fail e
  end.

Notation "x <~ m ;; k" := (res_bind m (fun x => k))
  (at level 100, m at level 99, right associativity).

Definition assert (b : bool) : res unit :=
  if b then Done tt else Fail AssertionFailure.

Definition from_option {A : Type} (o : option A) : res A :=
  match o with
  | Some a => Done a
  | None => Fail InvalidAccess
  end.

(** A loop whose body may abort. *)
Fixpoint foldM {A B : Type} (f : A -> B -> res A) (a : A) (l : list B) : res A :=
  match l with
  | [] => Done a
  | b :: l' => a' <~ f a b ;; foldM f a' l'
  end.

(** ** The allocator *)

(** A computation that may ask the allocator for memory: the state is
    the number of allocations made so far, and the next allocation is
    named by that number. *)
Definition Alloc (A : Type) : Type := nat -> res (A * nat).

Definition alloc_ret {A : Type} (a : A) : Alloc A := fun n => Done (a, n).

Definition alloc_bind {A B : Type} (m : Alloc A) (k : A -> Alloc B) : Alloc B :=
  fun n => match m n with
           | Done (a, n') => k a n'
           | Fail e => Fail e
           end.

Definition alloc_lift {A : Type} (r : res A) : Alloc A :=
  fun n => match r with
           | Done a => Done (a, n)
           | Fail e => Fail e
           end.

(** A new allocation. *)
Definition fresh : Alloc nat := fun n => Done (n, S n).

Notation "x <+ m ;; k" := (alloc_bind m (fun x => k))
  (at level 100, m at level 99, right associativity).

(** ** External value types *)

(** Modelled from the spec: the scalar type descriptor [halide_type_t]
    (element kind and width, compared with [==]), declared in the Halide
    runtime header. *)
Record halide_type_t : Type := {
  code : N;
  bits : N;
  lanes : N
}.

#[global] Instance halide_type_t_eq_dec : EqDecision halide_type_t.
Proof. solve_decision. Defined.

(** Modelled from the spec: [Interval] of [interpreter/interval.h], an
    inclusive range with [extent() = max - min + 1]; a [Box] is a vector
    of them. *)
Module Interval.
Record t : Type := { min : Z; max : Z }.
Definition extent (i : t) : Z := wrap (max i - min i + 1).
End Interval.

Abbreviation Box := (list Interval.t).

(** Modelled from the spec: one dimension of a buffer, with its [min()]
    and [extent()] fields and the derived [max() = min + extent - 1]. *)
Module Dim.
Record t : Type := { min : Z; extent : Z }.
Definition max (d : t) : Z := wrap (min d + extent d - 1).
End Dim.

(** Addresses of the allocations that back buffers. *)
Abbreviation DataPtr := nat.

(** Modelled from the spec: the [HalideBuffer<void>] abstraction
    (construct from a shape, construct with the shape of another,
    dimension count, per-dimension min and extent, [crop], [translate],
    and a data pointer that is null iff the buffer is unallocated).
    [data] names the allocation the buffer views; copies of a buffer
    share it. *)
Module Buffer.
Record t : Type := {
  type : halide_type_t;
  dim : list Dim.t;
  data : option DataPtr
}.

(** The default-constructed buffer: no dimensions, no data. *)
Definition empty : t :=
  {| type := {| code := 0; bits := 0; lanes := 0 |}; dim := []; data := None |}.

Definition dimensions (b : t) : nat := length (dim b).

Definition has_data (b : t) : bool := bool_decide (data b <> None).

(** [HalideBuffer<void> buffer(type, extents)], the constructor of the
    runtime's buffer class that takes a type and the sizes: every min is
    0, and it allocates the memory, unless one of the sizes is 0. *)
Definition of_extents (ty : halide_type_t) (extents : list Z) : Alloc t :=
  let shape := map (fun e => {| Dim.min := 0; Dim.extent := e |}) extents in
  if existsb (Z.eqb 0) extents then
    alloc_ret {| type := ty; dim := shape; data := None |}
  else
    p <+ fresh ;;
    alloc_ret {| type := ty; dim := shape; data := Some p |}.

Definition set_dim (i : nat) (d : Dim.t) (b : t) : t :=
  {| type := type b; dim := <[i := d]> (dim b); data := data b |}.

(** [translate(i, dx)] moves dimension [i] by [dx]. *)
Definition translate (i : nat) (dx : Z) (b : t) : t :=
  match dim b !! i with
  | Some d => set_dim i {| Dim.min := wrap (Dim.min d + dx); Dim.extent := Dim.extent d |} b
  | None => b
  end.

(** [crop(i, min, extent)] restricts dimension [i]; the view stays in
    the same allocation. *)
Definition crop (i : nat) (mn ext : Z) (b : t) : t :=
  set_dim i {| Dim.min := mn; Dim.extent := ext |} b.

(** [make_with_shape_of(b)]: a freshly allocated buffer of the same
    type and shape, backed by the new allocation [p]. *)
Definition make_with_shape_of (p : DataPtr) (b : t) : t :=
  {| type := type b; dim := dim b; data := Some p |}.
End Buffer.

(** [make_buffer] of the anonymous namespace. *)
Definition make_buffer (type : halide_type_t) (bounds : Box) : Alloc Buffer.t :=
  let extents := map Interval.extent bounds in
  buffer <+ Buffer.of_extents type extents ;;
  alloc_ret
    (foldl (fun b i =>
              match bounds !! i with
              | Some iv => Buffer.translate i (Interval.min iv) b
              | None => b
              end)
           buffer (seq 0 (length bounds))).

(** ** TensorStorage *)

Module TensorStorage.
Record t : Type := { buffer_ : Buffer.t }.

(** [TensorStorage::TensorStorage()] *)
Definition make : t := {| buffer_ := Buffer.empty |}.

(** [TensorStorage::TensorStorage(HalideBuffer<void> buffer)] *)
Definition make_from (buffer : Buffer.t) : res t :=
  _ <~ assert (negb (Buffer.has_data buffer)) ;;
  Done {| buffer_ := buffer |}.

Definition rank (s : t) : nat := Buffer.dimensions (buffer_ s).

(** One iteration of the loop of [add_use]. *)
Definition add_use_step (bounds : Box) (b : Buffer.t) (i : nat) : res Buffer.t :=
  d <~ from_option (Buffer.dim b !! i) ;;
  iv <~ from_option (bounds !! i) ;;
  let new_min := Z.min (Dim.min d) (Interval.min iv) in
  let new_max := Z.max (Dim.max d) (Interval.max iv) in
  Done (Buffer.set_dim i
          {| Dim.min := new_min; Dim.extent := wrap (new_max - new_min + 1) |} b).

(** [TensorStorage::add_use] *)
Definition add_use (type : halide_type_t) (bounds : Box) (s : t) : Alloc t :=
  if bool_decide (Buffer.dimensions (buffer_ s) = 0%nat) then
    b <+ make_buffer type bounds ;;
    alloc_ret {| buffer_ := b |}
  else
    alloc_lift
      (_ <~ assert (bool_decide (Buffer.type (buffer_ s) = type)) ;;
       _ <~ assert (bool_decide (Buffer.dimensions (buffer_ s) = length bounds)) ;;
       _ <~ assert (negb (Buffer.has_data (buffer_ s))) ;;
       b <~ foldM (add_use_step bounds) (buffer_ s) (seq 0 (rank s)) ;;
       Done {| buffer_ := b |}).

(** [TensorStorage::is_allocated] *)
Definition is_allocated (s : t) : bool := Buffer.has_data (buffer_ s).

(** The bounds a storage currently has, as a [Box]. *)
Definition bounds (s : t) : Box :=
  map (fun d => {| Interval.min := Dim.min d; Interval.max := Dim.max d |})
      (Buffer.dim (buffer_ s)).
End TensorStorage.

(** ** The store *)

Abbreviation TensorPtr := nat.
Abbreviation StoragePtr := nat.
Abbreviation OpPtr := nat.

(** [TensorMap] of [model.h]: a map from tensors to tensors, by address. *)
Abbreviation TensorMap := (gmap TensorPtr TensorPtr).

(** [apply] *)
Definition apply (map : TensorMap) (t : TensorPtr) : TensorPtr :=
  match map !! t with
  | Some t' => t'
  | None => t
  end.

(** Modelled from the spec: the [Op] contract (indexed input and output
    tensors held as non-owning references, and clone with a remapping);
    the class is declared in [model.h]. An op is owned by one
    [std::unique_ptr], so it carries its address as its identity. *)
Record Op : Type := {
  op_addr : OpPtr;
  inputs : list TensorPtr;
  outputs : list TensorPtr
}.

(** The fields of [Model]: the tensor list holds shared pointers. *)
Record Model : Type := {
  tensors : list TensorPtr;
  ops : list Op
}.

Section Interpreter.

(** Modelled from the spec: [QuantizationInfo] is opaque metadata. *)
Context {QuantizationInfo : Type}.

(** The fields of [Tensor]; [storage_] is a shared pointer that may be
    null. *)
Record Tensor : Type := {
  name_ : string;
  buffer_ : Buffer.t;
  quantization_ : QuantizationInfo;
  is_constant_ : bool;
  storage_ : option StoragePtr
}.

(** Every object made by [make_shared] or [make_unique] so far, by
    address, and the number of buffer allocations and ops made. *)
Record Heap : Type := {
  tensors_h : list Tensor;
  storages_h : list TensorStorage.t;
  data_h : nat;
  ops_h : nat
}.

Definition M (A : Type) : Type := Heap -> res (A * Heap).

Definition ret {A : Type} (a : A) : M A := fun h => Done (a, h).

Definition bind {A B : Type} (m : M A) (k : A -> M B) : M B :=
  fun h => match m h with
           | Done (a, h') => k a h'
           | Fail e => Fail e
           end.

Definition lift {A : Type} (r : res A) : M A :=
  fun h => match r with
           | Done a => Done (a, h)
           | Fail e => Fail e
           end.

Definition load_tensor (p : TensorPtr) : M Tensor :=
  fun h => match tensors_h h !! p with
           | Some t => Done (t, h)
           | None => Fail InvalidAccess
           end.

Definition store_tensor (p : TensorPtr) (t : Tensor) : M unit :=
  fun h => Done (tt, {| tensors_h := <[p := t]> (tensors_h h);
                        storages_h := storages_h h;
                        data_h := data_h h; ops_h := ops_h h |}).

Definition new_tensor (t : Tensor) : M TensorPtr :=
  fun h => Done (length (tensors_h h),
                 {| tensors_h := tensors_h h ++ [t];
                    storages_h := storages_h h;
                    data_h := data_h h; ops_h := ops_h h |}).

Definition load_storage (p : StoragePtr) : M TensorStorage.t :=
  fun h => match storages_h h !! p with
           | Some s => Done (s, h)
           | None => Fail InvalidAccess
           end.

Definition store_storage (p : StoragePtr) (s : TensorStorage.t) : M unit :=
  fun h => Done (tt, {| tensors_h := tensors_h h;
                        storages_h := <[p := s]> (storages_h h);
                        data_h := data_h h; ops_h := ops_h h |}).

Definition new_storage (s : TensorStorage.t) : M StoragePtr :=
  fun h => Done (length (storages_h h),
                 {| tensors_h := tensors_h h;
                    storages_h := storages_h h ++ [s];
                    data_h := data_h h; ops_h := ops_h h |}).

(** Run a computation of the allocator on the store's allocator. *)
Definition with_allocator {A : Type} (c : Alloc A) : M A :=
  fun h => match c (data_h h) with
           | Done (a, n) =>
               Done (a, {| tensors_h := tensors_h h; storages_h := storages_h h;
                           data_h := n; ops_h := ops_h h |})
           | Fail e => Fail e
           end.

Definition new_data : M DataPtr :=
  fun h => Done (data_h h,
                 {| tensors_h := tensors_h h; storages_h := storages_h h;
                    data_h := S (data_h h); ops_h := ops_h h |}).

Definition new_op : M OpPtr :=
  fun h => Done (ops_h h,
                 {| tensors_h := tensors_h h; storages_h := storages_h h;
                    data_h := data_h h; ops_h := S (ops_h h) |}).


Notation "x <- m ;; k" := (bind m (fun x => k))
  (at level 100, m at level 99, right associativity).

(** ** TensorStorage, through a pointer *)

(** A call of [add_use] on the storage at [this]. *)
Definition TensorStorage_add_use (this : StoragePtr)
    (type : halide_type_t) (bounds : Box) : M unit :=
  s <- load_storage this ;;
  s' <- with_allocator (TensorStorage.add_use type bounds s) ;;
  store_storage this s'.

(** [TensorStorage::allocate] *)
Definition TensorStorage_allocate (this : StoragePtr) : M unit :=
  s <- load_storage this ;;
  if negb (Buffer.has_data (TensorStorage.buffer_ s)) then
    p <- new_data ;;
    store_storage this
      {| TensorStorage.buffer_ :=
           Buffer.make_with_shape_of p (TensorStorage.buffer_ s) |}
  else ret tt.

(** ** Tensor *)

(** [Tensor::Tensor(std::string, HalideBuffer<void>, QuantizationInfo)] *)
Definition Tensor_make (name : string) (buffer : Buffer.t)
    (quantization : QuantizationInfo) : Tensor :=
  {| name_ := name;
     buffer_ := buffer;
     quantization_ := quantization;
     is_constant_ := Buffer.has_data buffer;
     storage_ := None |}.

(** [Tensor::Tensor(std::string, halide_type_t, const Box &, QuantizationInfo)] *)
Definition Tensor_make_typed (name : string) (type : halide_type_t)
    (bounds : Box) (quantization : QuantizationInfo) : Alloc Tensor :=
  buffer <+ make_buffer type bounds ;;
  alloc_ret (Tensor_make name buffer quantization).

(** Modelled from the spec: the accessors [type()] and [box()] of
    [model.h], the type and the declared bounds of the tensor's buffer. *)
Definition Tensor_type (t : Tensor) : halide_type_t := Buffer.type (buffer_ t).

Definition Tensor_box (t : Tensor) : Box :=
  map (fun d => {| Interval.min := Dim.min d; Interval.max := Dim.max d |})
      (Buffer.dim (buffer_ t)).

(** Modelled from the spec: the copy constructor of [Tensor], which
    [model.cpp] does not define: a fresh independent copy with the same
    name, type, bounds and quantization and no storage binding yet. *)
Definition Tensor_copy (t : Tensor) : Tensor :=
  {| name_ := name_ t;
     buffer_ := {| Buffer.type := Buffer.type (buffer_ t);
                   Buffer.dim := Buffer.dim (buffer_ t);
                   Buffer.data := None |};
     quantization_ := quantization_ t;
     is_constant_ := is_constant_ t;
     storage_ := None |}.

Definition set_storage (p : StoragePtr) (t : Tensor) : Tensor :=
  {| name_ := name_ t; buffer_ := buffer_ t; quantization_ := quantization_ t;
     is_constant_ := is_constant_ t; storage_ := Some p |}.

Definition set_buffer (b : Buffer.t) (t : Tensor) : Tensor :=
  {| name_ := name_ t; buffer_ := b; quantization_ := quantization_ t;
     is_constant_ := is_constant_ t; storage_ := storage_ t |}.

(** [Tensor::storage] *)
Definition Tensor_storage (this : TensorPtr) : M StoragePtr :=
  t <- load_tensor this ;;
  match storage_ t with
  | Some p => ret p
  | None =>
      s <- lift (TensorStorage.make_from (buffer_ t)) ;;
      p <- new_storage s ;;
      _ <- store_tensor this (set_storage p t) ;;
      ret p
  end.

(** [Tensor::is_allocated] *)
Definition Tensor_is_allocated (t : Tensor) : bool := Buffer.has_data (buffer_ t).

(** One iteration of the loop of [Tensor::allocate]: [own] is the
    tensor's [buffer_], [buffer] the local copy of the storage's. *)
Definition crop_step (own : Buffer.t) (buffer : Buffer.t) (i : nat) : res Buffer.t :=
  sd <~ from_option (Buffer.dim buffer !! i) ;;
  td <~ from_option (Buffer.dim own !! i) ;;
  _ <~ assert (bool_decide (Dim.min sd <= Dim.min td)) ;;
  _ <~ assert (bool_decide (Dim.max sd >= Dim.max td)) ;;
  Done (Buffer.crop i (Dim.min td) (Dim.extent td) buffer).

(** [Tensor::allocate] *)
Definition Tensor_allocate (this : TensorPtr) : M unit :=
  t <- load_tensor this ;;
  if Buffer.has_data (buffer_ t) then ret tt
  else
    p <- Tensor_storage this ;;
    _ <- TensorStorage_allocate p ;;
    p' <- Tensor_storage this ;;
    s <- load_storage p' ;;
    let buffer := TensorStorage.buffer_ s in
    t' <- load_tensor this ;;
    buffer' <- lift (foldM (crop_step (buffer_ t')) buffer
                       (seq 0 (Buffer.dimensions buffer))) ;;
    store_tensor this (set_buffer buffer' t').

(** [Tensor::set_alias_of] *)
Definition Tensor_set_alias_of (this : TensorPtr) (t : TensorPtr) : M unit :=
  p <- Tensor_storage t ;;
  self <- load_tensor this ;;
  _ <- store_tensor this (set_storage p self) ;;
  self' <- load_tensor this ;;
  TensorStorage_add_use p (Tensor_type self') (Tensor_box self').

(** ** Model *)

(** Modelled from the spec: [Op::clone(const TensorMap &)], implemented
    by each op class: a new op whose tensors are the original's, each
    passed through [apply]. *)
Definition Op_clone (map : TensorMap) (o : Op) : M Op :=
  a <- new_op ;;
  ret {| op_addr := a;
         inputs := apply map <$> inputs o;
         outputs := apply map <$> outputs o |}.

(** The first loop of the copy constructor: [ts] is what remains of
    [tensors], each element replaced in place by its clone. *)
Fixpoint clone_tensors (ts : list TensorPtr) (map : TensorMap)
    : M (list TensorPtr * TensorMap) :=
  match ts with
  | [] => ret ([], map)
  | i :: rest =>
      t <- load_tensor i ;;
      if negb (Tensor_is_allocated t) then
        cloned <- new_tensor (Tensor_copy t) ;;
        r <- clone_tensors rest (<[i := cloned]> map) ;;
        ret (cloned :: r.1, r.2)
      else
        r <- clone_tensors rest map ;;
        ret (i :: r.1, r.2)
  end.

(** The second loop: [ops.push_back(i->clone(map))]. *)
Fixpoint clone_ops (map : TensorMap) (os : list Op) : M (list Op) :=
  match os with
  | [] => ret []
  | i :: rest =>
      c <- Op_clone map i ;;
      r <- clone_ops map rest ;;
      ret (c :: r)
  end.

(** [Model::Model(const Model &)] *)
Definition Model_copy (copy : Model) : M Model :=
  r <- clone_tensors (tensors copy) ∅ ;;
  os <- clone_ops r.2 (ops copy) ;;
  ret {| tensors := r.1; ops := os |}.

End Interpreter.

Arguments Tensor : clear implicits.
Arguments Heap : clear implicits.

(** [Model::insert] for a tensor ([to_insert], [after]), on the tensor
    list. *)
Fixpoint insert_after (to_insert after : TensorPtr) (l : list TensorPtr)
    : list TensorPtr :=
  match l with
  | [] => [to_insert]
  | i :: rest =>
      if bool_decide (i = after) then i :: to_insert :: rest
      else i :: insert_after to_insert after rest
  end.

Definition Model_insert_tensor (to_insert after : TensorPtr) (m : Model) : Model :=
  {| tensors := insert_after to_insert after (tensors m); ops := ops m |}.

(** The two inner loops of the op [insert]: does [i] read, as one of its
    inputs, one of the outputs of [to_insert]? *)
Definition consumes (i to_insert : Op) : bool :=
  existsb (fun out => existsb (fun inp => bool_decide (inp = out)) (inputs i))
          (outputs to_insert).

(** [Model::insert] for an op ([to_insert], [before]), on the op list. *)
Fixpoint insert_before (to_insert : Op) (before : OpPtr) (l : list Op) : list Op :=
  match l with
  | [] => [to_insert]
  | i :: rest =>
      if bool_decide (op_addr i = before) then to_insert :: i :: rest
      else if consumes i to_insert then to_insert :: i :: rest
      else i :: insert_before to_insert before rest
  end.

Definition Model_insert_op (to_insert : Op) (before : OpPtr) (m : Model) : Model :=
  {| tensors := tensors m; ops := insert_before to_insert before (ops m) |}.

(** ** Specification vocabulary *)

(** Both index loops of the source have one shape: dimension [i] of the
    buffer is rewritten from itself and from entry [i] of a second
    vector. *)
Definition dim_loop_step {X : Type} (g : Dim.t -> X -> res Dim.t)
    (other : list X) (b : Buffer.t) (i : nat) : res Buffer.t :=
  d <~ from_option (Buffer.dim b !! i) ;;
  x <~ from_option (other !! i) ;;
  d' <~ g d x ;;
  Done (Buffer.set_dim i d' b).

(** What such a loop computes, on the dimension vector alone. *)
Fixpoint zipM {X : Type} (g : Dim.t -> X -> res Dim.t)
    (ds : list Dim.t) (xs : list X) : res (list Dim.t) :=
  match ds with
  | [] => Done []
  | d :: ds' =>
      match xs with
      | [] => Fail InvalidAccess
      | x :: xs' =>
          d' <~ g d x ;;
          r <~ zipM g ds' xs' ;;
          Done (d' :: r)
      end
  end.

(** An interval whose ends are [int] values. *)
Definition interval_in_int (iv : Interval.t) : Prop :=
  in_int (Interval.min iv) /\ in_int (Interval.max iv).

(** The union of two intervals, and of a non-empty family of them: the
    least min and the greatest max. *)
Definition union_interval (a b : Interval.t) : Interval.t :=
  {| Interval.min := Z.min (Interval.min a) (Interval.min b);
     Interval.max := Z.max (Interval.max a) (Interval.max b) |}.

Definition union_all (iv0 : Interval.t) (ivs : list Interval.t) : Interval.t :=
  {| Interval.min := foldr Z.min (Interval.min iv0) (Interval.min <$> ivs);
     Interval.max := foldr Z.max (Interval.max iv0) (Interval.max <$> ivs) |}.

(** Dimension [i] of each box of a list, for the boxes that have one. *)
Definition column (i : nat) (boxes : list Box) : list Interval.t :=
  omap (fun b : Box => b !! i) boxes.

(** A sequence of [add_use] calls with one type on one storage. *)
Fixpoint add_uses (type : halide_type_t) (uses : list Box)
    (s : TensorStorage.t) : Alloc TensorStorage.t :=
  match uses with
  | [] => alloc_ret s
  | bounds :: uses' =>
      s' <+ TensorStorage.add_use type bounds s ;;
      add_uses type uses' s'
  end.

(** The dimensions [make_buffer] gives a box, and the buffer of that
    shape that has no memory yet, as the buffer constructor that is
    handed a null pointer makes it. *)
Definition box_dims (bounds : Box) : list Dim.t :=
  (fun iv => {| Dim.min := wrap (0 + Interval.min iv);
                Dim.extent := Interval.extent iv |}) <$> bounds.

Definition unallocated (ty : halide_type_t) (bounds : Box) : Buffer.t :=
  {| Buffer.type := ty; Buffer.dim := box_dims bounds; Buffer.data := None |}.

(** What [make_buffer] returns when [n] allocations were made: the
    buffer, and the number of allocations made then. *)
Definition made (ty : halide_type_t) (bounds : Box) (n : nat) : Buffer.t * nat :=
  if existsb (Z.eqb 0) (map Interval.extent bounds) then (unallocated ty bounds, n)
  else ({| Buffer.type := ty; Buffer.dim := box_dims bounds; Buffer.data := Some n |}, S n).

(** No extent of the box is 0, so that [make_buffer] allocates. *)
Definition no_zero_extent (bounds : Box) : Prop :=
  existsb (Z.eqb 0) (map Interval.extent bounds) = false.

(** The dimension written by one iteration of the loop of [add_use]. *)
Definition grow (d : Dim.t) (iv : Interval.t) : Dim.t :=
  let new_min := Z.min (Dim.min d) (Interval.min iv) in
  let new_max := Z.max (Dim.max d) (Interval.max iv) in
  {| Dim.min := new_min; Dim.extent := wrap (new_max - new_min + 1) |}.

(** A [Box] of rank [n] whose entries are [int] values. *)
Definition box_ok (n : nat) (b : Box) : Prop :=
  length b = n /\ Forall interval_in_int b.

(** Two element types, for examples. *)
Definition int8 : halide_type_t := {| code := 0; bits := 8; lanes := 1 |}.
Definition float32 : halide_type_t := {| code := 2; bits := 32; lanes := 1 |}.

(** A storage's dimensions contain a tensor's: the same rank, and in
    every dimension a min no greater and a max no smaller. *)
Definition contains (sds tds : list Dim.t) : Prop :=
  Forall2 (fun sd td => Dim.min sd <= Dim.min td /\ Dim.max td <= Dim.max sd) sds tds.

(** The check and the crop of one iteration of [Tensor::allocate]. *)
Definition crop_dim (sd td : Dim.t) : res Dim.t :=
  _ <~ assert (bool_decide (Dim.min sd <= Dim.min td)) ;;
  _ <~ assert (bool_decide (Dim.max sd >= Dim.max td)) ;;
  Done {| Dim.min := Dim.min td; Dim.extent := Dim.extent td |}.

(** The dimensions of the storage a tensor will use: those of the
    storage it is bound to, or its own if [storage()] has yet to make
    one. *)
Definition backing_dims {QuantizationInfo : Type} (h : Heap QuantizationInfo)
    (t : Tensor QuantizationInfo) : list Dim.t :=
  match storage_ t with
  | Some p =>
      match storages_h h !! p with
      | Some s => Buffer.dim (TensorStorage.buffer_ s)
      | None => []
      end
  | None => Buffer.dim (buffer_ t)
  end.

(** The storage a tensor will use: the one it is bound to, or the one
    [storage()] would make from the tensor's own buffer. *)
Definition backing_storage {QuantizationInfo : Type} (h : Heap QuantizationInfo)
    (t : Tensor QuantizationInfo) : option TensorStorage.t :=
  match storage_ t with
  | Some p => storages_h h !! p
  | None => Some {| TensorStorage.buffer_ := buffer_ t |}
  end.

(** The bounds [sb] of a storage cover the bounds [tb] of a tensor. *)
Definition covers (sb tb : Box) : Prop :=
  forall i iv, tb !! i = Some iv ->
    exists siv, sb !! i = Some siv
      /\ Interval.min siv <= Interval.min iv
      /\ Interval.max iv <= Interval.max siv.

(** A buffer whose mins are [int] values. *)
Definition buffer_in_int (b : Buffer.t) : Prop :=
  Forall (fun d => in_int (Dim.min d)) (Buffer.dim b).

(** The ops are in topological order: whoever consumes an output of an
    op stands after it. *)
Definition topological (l : list Op) : Prop :=
  forall (i j : nat) (p c : Op),
    l !! i = Some p -> l !! j = Some c -> consumes c p = true -> (i < j)%nat.

(** The number of ops the op [insert] walks past before it places
    [to_insert]. *)
Fixpoint insert_position (to_insert : Op) (before : OpPtr) (l : list Op) : nat :=
  match l with
  | [] => 0
  | i :: rest =>
      if bool_decide (op_addr i = before) then 0
      else if consumes i to_insert then 0
      else S (insert_position to_insert before rest)
  end.

(** ** A small store and a small model, for examples *)

Definition iv (mn mx : Z) : Interval.t := {| Interval.min := mn; Interval.max := mx |}.

(** A constant tensor built from a populated buffer. *)
Definition ex_W : Tensor unit :=
  Tensor_make "W"
    {| Buffer.type := int8; Buffer.dim := [{| Dim.min := 0; Dim.extent := 4 |}];
       Buffer.data := Some 0%nat |} tt.

(** Two tensors still to be allocated; [ex_A] is bound to storage 0. *)
Definition ex_X : Tensor unit := Tensor_make "X" (unallocated int8 [iv 0 9]) tt.

Definition ex_A : Tensor unit :=
  set_storage 0 (Tensor_make "A" (unallocated int8 [iv 0 3]) tt).

Definition ex_heap : Heap unit :=
  {| tensors_h := [ex_W; ex_X; ex_A];
     storages_h := [{| TensorStorage.buffer_ := unallocated int8 [iv (-2) 7] |}];
     data_h := 1;
     ops_h := 4 |}.

Definition ex_op1 : Op := {| op_addr := 1; inputs := [0%nat]; outputs := [1%nat] |}.
Definition ex_op2 : Op := {| op_addr := 2; inputs := [5%nat]; outputs := [6%nat] |}.
Definition ex_op3 : Op := {| op_addr := 3; inputs := [1%nat]; outputs := [2%nat] |}.

Definition ex_model : Model :=
  {| tensors := [0%nat; 1%nat; 2%nat]; ops := [ex_op1; ex_op2; ex_op3] |}.

(** A new op whose output tensor 5 is read by [ex_op2], and one whose
    output nobody reads. *)
Definition ex_new1 : Op := {| op_addr := 4; inputs := [1%nat]; outputs := [5%nat] |}.
Definition ex_new2 : Op := {| op_addr := 5; inputs := [1%nat]; outputs := [8%nat] |}.

(** Containment is decidable. *)
#[global] Instance contains_dec (sds tds : list Dim.t) : Decision (contains sds tds).
Proof. unfold contains. apply _. Defined.

(** Closed goals about [int] ranges. *)
Ltac solve_in_int := vm_compute; repeat split; discriminate.

(** A buffer whose extents are [int] values too. *)
Definition extents_in_int (b : Buffer.t) : Prop :=
  Forall (fun d => in_int (Dim.extent d)) (Buffer.dim b).

(** ** Visiting the ops *)

Section Accept.

(** Modelled from the spec: [Op::accept], which takes the visitor, is implemented by
    each op class and hands the op to the visitor, which may edit the
    model on the way. [State] is all the visitor can reach, [get_ops] the
    op list of the model in it, and [visit o] the whole effect of
    [o->accept(v)]. *)
Context {State : Type} (get_ops : State -> list Op) (visit : Op -> State -> State).

(** The loop of [Model::accept], from index [i]; it reads [ops.size()]
    again at every step. [fuel] bounds the number of steps. *)
Fixpoint Model_accept_from (fuel : nat) (i : nat) (s : State) : option State :=
  match fuel with
  | O => None
  | S fuel' =>
      if bool_decide (i < length (get_ops s))%nat then
        match get_ops s !! i with
        | Some o => Model_accept_from fuel' (S i) (visit o s)
        | None => None
        end
      else Some s
  end.

(** [Model::accept] *)
Definition Model_accept (fuel : nat) (s : State) : option State :=
  Model_accept_from fuel 0 s.

End Accept.

(** A tensor of the store that has data. *)
Definition allocated_in {QuantizationInfo : Type} (h : Heap QuantizationInfo)
    (p : TensorPtr) : Prop :=
  exists t, tensors_h h !! p = Some t /\ Tensor_is_allocated t = true.

(** Every tensor an op refers to is an address of the store. *)
Definition op_in_store {QuantizationInfo : Type} (h : Heap QuantizationInfo)
    (o : Op) : Prop :=
  Forall (fun q => (q < length (tensors_h h))%nat) (inputs o ++ outputs o).

(** A second store: two tensors still to be allocated and a tensor
    without dimensions, none bound to a storage. *)
Definition ex_Y : Tensor unit := Tensor_make "Y" (unallocated int8 [iv 5 20]) tt.
Definition ex_S : Tensor unit := Tensor_make "S" (unallocated float32 []) tt.

Definition ex_heap2 : Heap unit :=
  {| tensors_h := [ex_X; ex_Y; ex_S]; storages_h := []; data_h := 0; ops_h := 0 |}.

(** A model of the constant tensor alone, and one whose ops refer to
    tensors of [ex_heap] only. *)
Definition ex_const_model : Model :=
  {| tensors := [0%nat];
     ops := [{| op_addr := 1; inputs := [0%nat]; outputs := [0%nat] |}] |}.

Definition ex_chain_model : Model :=
  {| tensors := [0%nat; 1%nat; 2%nat]; ops := [ex_op1; ex_op3] |}.

Definition ex_new3 : Op := {| op_addr := 6; inputs := [1%nat]; outputs := [9%nat] |}.

(** A visitor that counts its visits, and one that inserts an op before
    each op it is shown. *)
Definition ex_count_visit (o : Op) (s : Model * nat) : Model * nat := (s.1, S s.2).


(** * Properties *)

(** ** Machine integers *)

Lemma wrap_in_int (z : Z) : in_int (wrap z).
Proof.
  unfold in_int, int_min, int_max, wrap.
  pose proof (Z.mod_pos_bound (z + 2 ^ 31) (2 ^ 32)). lia.
Qed.

Lemma wrap_id (z : Z) : in_int z -> wrap z = z.
Proof.
  unfold in_int, int_min, int_max, wrap. intros Hz.
  rewrite Z.mod_small by lia. lia.
Qed.

(** Storing an extent and reading the max back loses nothing, whatever
    the intermediate overflow. *)
Lemma wrap_max_of_extent (mn mx : Z) :
  in_int mx -> wrap (mn + wrap (mx - mn + 1) - 1) = mx.
Proof.
  intros Hmx. unfold wrap at 1.
  replace (mn + wrap (mx - mn + 1) - 1 + 2 ^ 31)
    with ((mn - 1) + ((mx - mn + 1 + 2 ^ 31) mod 2 ^ 32)) by (unfold wrap; lia).
  rewrite Zplus_mod_idemp_r.
  replace (mn - 1 + (mx - mn + 1 + 2 ^ 31)) with (mx + 2 ^ 31) by lia.
  unfold in_int, int_min, int_max in Hmx.
  rewrite Z.mod_small by lia. lia.
Qed.

Lemma Dim_max_in_int (d : Dim.t) : in_int (Dim.max d).
Proof. apply wrap_in_int. Qed.

(** ** Loops over the dimensions of a buffer *)

Lemma foldM_ext {A B : Type} (f g : A -> B -> res A) (a : A) (l : list B) :
  (forall a b, f a b = g a b) -> foldM f a l = foldM g a l.
Proof.
  intros Hfg. revert a. induction l as [|b l IH]; intros a; simpl; [reflexivity|].
  rewrite Hfg. destruct (g a b); simpl; [apply IH | reflexivity].
Qed.

Lemma foldM_dim_loop {X : Type} (g : Dim.t -> X -> res Dim.t) (other : list X)
    (ty : halide_type_t) (dat : option DataPtr) (ds pre : list Dim.t) :
  foldM (dim_loop_step g other)
        {| Buffer.type := ty; Buffer.dim := pre ++ ds; Buffer.data := dat |}
        (seq (length pre) (length ds))
  = (ds' <~ zipM g ds (drop (length pre) other) ;;
     Done {| Buffer.type := ty; Buffer.dim := pre ++ ds'; Buffer.data := dat |}).
Proof.
  revert pre. induction ds as [|d ds IH]; intros pre; simpl.
  - reflexivity.
  - unfold dim_loop_step at 1. simpl.
    rewrite list_lookup_middle by reflexivity. simpl.
    destruct (other !! length pre) as [x|] eqn:Hx; simpl.
    + rewrite (drop_S _ _ _ Hx).
      destruct (g d x) as [d'|e]; simpl; [|reflexivity].
      unfold Buffer.set_dim; simpl.
      replace (<[length pre:=d']> (pre ++ d :: ds)) with ((pre ++ [d']) ++ ds).
      2:{ rewrite insert_app_r_alt by lia. rewrite Nat.sub_diag. simpl.
          by rewrite <- app_assoc. }
      replace (S (length pre)) with (length (pre ++ [d']))
        by (rewrite length_app; simpl; lia).
      rewrite IH.
      destruct (zipM g ds _) as [r|e]; simpl; [|reflexivity].
      by rewrite <- app_assoc.
    + rewrite drop_ge; [reflexivity|]. by apply lookup_ge_None.
Qed.

Lemma foldM_dim_loop_0 {X : Type} (g : Dim.t -> X -> res Dim.t) (other : list X)
    (b : Buffer.t) :
  foldM (dim_loop_step g other) b (seq 0 (Buffer.dimensions b))
  = (ds' <~ zipM g (Buffer.dim b) other ;;
     Done {| Buffer.type := Buffer.type b; Buffer.dim := ds';
             Buffer.data := Buffer.data b |}).
Proof.
  destruct b as [ty ds dat]. apply (foldM_dim_loop g other ty dat ds []).
Qed.

(** ** [make_buffer] *)

Lemma make_buffer_loop (bounds : Box) (ty : halide_type_t) (dat : option DataPtr)
    (ds : list Dim.t) (bs : Box) (pre : list Dim.t) (bpre : Box) :
  bounds = bpre ++ bs -> length bpre = length pre -> length bs = length ds ->
  foldl (fun b i => match bounds !! i with
                    | Some iv => Buffer.translate i (Interval.min iv) b
                    | None => b
                    end)
        {| Buffer.type := ty; Buffer.dim := pre ++ ds; Buffer.data := dat |}
        (seq (length pre) (length ds))
  = {| Buffer.type := ty;
       Buffer.dim := pre ++ zip_with (fun d iv =>
                       {| Dim.min := wrap (Dim.min d + Interval.min iv);
                          Dim.extent := Dim.extent d |}) ds bs;
       Buffer.data := dat |}.
Proof.
  revert bs pre bpre. induction ds as [|d ds IH]; intros bs pre bpre Hb Hpre Hlen.
  - destruct bs; [reflexivity | discriminate].
  - destruct bs as [|iv bs]; [discriminate|]. simpl in *.
    assert (Hiv : bounds !! length pre = Some iv).
    { rewrite Hb, <- Hpre. by apply list_lookup_middle. }
    rewrite Hiv. unfold Buffer.translate; simpl.
    rewrite list_lookup_middle by reflexivity.
    unfold Buffer.set_dim; simpl.
    rewrite insert_app_r_alt by lia. rewrite Nat.sub_diag. simpl.
    replace (S (length pre))
      with (length (pre ++ [{| Dim.min := wrap (Dim.min d + Interval.min iv);
                              Dim.extent := Dim.extent d |}]))
      by (rewrite length_app; simpl; lia).
    rewrite (app_assoc pre [_] ds) || rewrite (cons_middle _ pre ds), app_assoc.
    rewrite (IH bs _ (bpre ++ [iv])).
    + by rewrite <- app_assoc.
    + by rewrite <- app_assoc.
    + rewrite !length_app. simpl. lia.
    + lia.
Qed.

Lemma make_buffer_eq (ty : halide_type_t) (bounds : Box) (n : nat) :
  make_buffer ty bounds n = Done (made ty bounds n).
Proof.
  unfold make_buffer, Buffer.of_extents, made, unallocated, box_dims, alloc_bind.
  pose proof (fun dat => make_buffer_loop bounds ty dat
                (map (fun e => {| Dim.min := 0; Dim.extent := e |})
                     (map Interval.extent bounds)) bounds [] []) as H.
  simpl in H. rewrite !length_map in H.
  assert (Hdims : zip_with (fun d iv => {| Dim.min := wrap (Dim.min d + Interval.min iv);
                                           Dim.extent := Dim.extent d |})
                    (map (fun e => {| Dim.min := 0; Dim.extent := e |})
                         (map Interval.extent bounds)) bounds
                  = (fun iv => {| Dim.min := wrap (0 + Interval.min iv);
                                  Dim.extent := Interval.extent iv |}) <$> bounds).
  { clear H. induction bounds as [|iv bs IH]; simpl; [reflexivity|]. by rewrite IH. }
  destruct (existsb (Z.eqb 0) (map Interval.extent bounds)); simpl;
    rewrite H by (rewrite ?length_map; reflexivity); by rewrite Hdims.
Qed.

Lemma box_dims_bounds (bounds : Box) :
  Forall interval_in_int bounds ->
  map (fun d => {| Interval.min := Dim.min d; Interval.max := Dim.max d |})
      (box_dims bounds) = bounds.
Proof.
  intros Hb. unfold box_dims.
  induction Hb as [|iv bs [Hmin Hmax] _ IH]; simpl; [reflexivity|].
  f_equal; [|exact IH]. destruct iv as [mn mx]; simpl in *.
  unfold Dim.max, Interval.extent; simpl.
  rewrite (wrap_id (0 + mn)) by (by rewrite Z.add_0_l).
  rewrite Z.add_0_l. by rewrite wrap_max_of_extent.
Qed.

Lemma made_shape (ty : halide_type_t) (bounds : Box) (n : nat) :
  Buffer.type (made ty bounds n).1 = ty
  /\ Buffer.dim (made ty bounds n).1 = box_dims bounds.
Proof. unfold made. by destruct (existsb _ _). Qed.

Lemma make_buffer_bounds (ty : halide_type_t) (bounds : Box) (n : nat) :
  Forall interval_in_int bounds ->
  TensorStorage.bounds {| TensorStorage.buffer_ := (made ty bounds n).1 |} = bounds.
Proof.
  intros Hb. unfold TensorStorage.bounds. cbn [TensorStorage.buffer_].
  rewrite (proj2 (made_shape ty bounds n)). by apply box_dims_bounds.
Qed.

(** ** [TensorStorage::add_use] *)

(** ** [TensorStorage::add_use] *)
Lemma zipM_total {X : Type} (f : Dim.t -> X -> Dim.t) (ds : list Dim.t) (xs : list X) :
  length ds = length xs ->
  zipM (fun d x => Done (f d x)) ds xs = Done (zip_with f ds xs).
Proof.
  revert xs. induction ds as [|d ds IH]; intros [|x xs] Hlen; simpl in *;
    try discriminate; [reflexivity|].
  rewrite IH by lia. reflexivity.
Qed.

Lemma add_use_first (ty : halide_type_t) (bounds : Box) (s : TensorStorage.t) (n : nat) :
  TensorStorage.rank s = 0%nat ->
  TensorStorage.add_use ty bounds s n
  = Done ({| TensorStorage.buffer_ := (made ty bounds n).1 |}, (made ty bounds n).2).
Proof.
  unfold TensorStorage.rank, TensorStorage.add_use. intros ->. simpl.
  unfold alloc_bind. rewrite make_buffer_eq. by destruct (made ty bounds n).
Qed.

Lemma add_use_grow (ty : halide_type_t) (bounds : Box) (s : TensorStorage.t) (n : nat) :
  TensorStorage.rank s <> 0%nat ->
  Buffer.type (TensorStorage.buffer_ s) = ty ->
  TensorStorage.rank s = length bounds ->
  Buffer.data (TensorStorage.buffer_ s) = None ->
  TensorStorage.add_use ty bounds s n
  = Done ({| TensorStorage.buffer_ :=
               {| Buffer.type := ty;
                  Buffer.dim := zip_with grow (Buffer.dim (TensorStorage.buffer_ s)) bounds;
                  Buffer.data := None |} |}, n).
Proof.
  unfold TensorStorage.rank, TensorStorage.add_use. intros Hn Hty Hlen Hdat.
  rewrite bool_decide_eq_false_2 by exact Hn.
  rewrite (bool_decide_eq_true_2 _ Hty), (bool_decide_eq_true_2 _ Hlen).
  unfold Buffer.has_data. rewrite Hdat. simpl.
  change (TensorStorage.add_use_step bounds)
    with (dim_loop_step (fun d iv => Done (grow d iv)) bounds).
  unfold TensorStorage.rank. rewrite foldM_dim_loop_0.
  rewrite zipM_total by exact Hlen. simpl. by rewrite Hty, Hdat.
Qed.

(** [add_use] on a storage that has dimensions stops at an assertion
    when the type or the rank differs or the storage has data. *)
Lemma add_use_stops (ty : halide_type_t) (bounds : Box) (s : TensorStorage.t) (n : nat) :
  TensorStorage.rank s <> 0%nat ->
  Buffer.type (TensorStorage.buffer_ s) <> ty
  \/ TensorStorage.rank s <> length bounds
  \/ TensorStorage.is_allocated s = true ->
  TensorStorage.add_use ty bounds s n = Fail AssertionFailure.
Proof.
  intros Hn Hbad. unfold TensorStorage.add_use, TensorStorage.rank in *.
  rewrite bool_decide_eq_false_2 by exact Hn.
  destruct (decide (Buffer.type (TensorStorage.buffer_ s) = ty)) as [Hty|Hty].
  2:{ by rewrite (bool_decide_eq_false_2 _ Hty). }
  rewrite (bool_decide_eq_true_2 _ Hty). simpl.
  destruct (decide (Buffer.dimensions (TensorStorage.buffer_ s) = length bounds))
    as [Hlen|Hlen].
  2:{ by rewrite (bool_decide_eq_false_2 _ Hlen). }
  rewrite (bool_decide_eq_true_2 _ Hlen). simpl.
  destruct Hbad as [Hbad|[Hbad|Hbad]]; [done | done |].
  unfold TensorStorage.is_allocated in Hbad. by rewrite Hbad.
Qed.

Lemma grow_bounds (d : Dim.t) (iv : Interval.t) :
  in_int (Interval.max iv) ->
  {| Interval.min := Dim.min (grow d iv); Interval.max := Dim.max (grow d iv) |}
  = union_interval
      {| Interval.min := Dim.min d; Interval.max := Dim.max d |} iv.
Proof.
  intros Hmx. unfold union_interval, grow, Dim.max at 1; simpl. f_equal.
  apply wrap_max_of_extent.
  pose proof (Dim_max_in_int d). unfold in_int in *. lia.
Qed.

Lemma add_use_grow_bounds (ty : halide_type_t) (bounds : Box) (s : TensorStorage.t) :
  Forall interval_in_int bounds ->
  TensorStorage.bounds
    {| TensorStorage.buffer_ :=
         {| Buffer.type := ty;
            Buffer.dim := zip_with grow (Buffer.dim (TensorStorage.buffer_ s)) bounds;
            Buffer.data := None |} |}
  = zip_with union_interval (TensorStorage.bounds s) bounds.
Proof.
  unfold TensorStorage.bounds; simpl. generalize (Buffer.dim (TensorStorage.buffer_ s)).
  intros ds Hb. revert ds. induction Hb as [|iv bs [_ Hmx] _ IH]; intros [|d ds]; simpl;
    try reflexivity.
  f_equal; [by apply grow_bounds | apply IH].
Qed.

Lemma add_uses_grow (ty : halide_type_t) (k : nat) (uses : list Box)
    (s : TensorStorage.t) (n : nat) :
  k <> 0%nat ->
  TensorStorage.rank s = k ->
  Buffer.type (TensorStorage.buffer_ s) = ty ->
  Buffer.data (TensorStorage.buffer_ s) = None ->
  Forall (box_ok k) uses ->
  exists s', add_uses ty uses s n = Done (s', n)
    /\ TensorStorage.bounds s'
       = foldl (zip_with union_interval) (TensorStorage.bounds s) uses.
Proof.
  intros Hk Hrank Hty Hdat Huses. revert s Hrank Hty Hdat.
  induction Huses as [|b uses [Hlen Hb] _ IH]; intros s Hrank Hty Hdat.
  - exists s. split; reflexivity.
  - cbn [add_uses]. unfold alloc_bind.
    rewrite add_use_grow by congruence.
    edestruct IH as (s' & Hs' & Hbnd); [| | | exists s'; split; [exact Hs'|]].
    + unfold TensorStorage.rank, Buffer.dimensions in *; simpl.
      rewrite length_zip_with. lia.
    + reflexivity.
    + reflexivity.
    + rewrite Hbnd. simpl. by rewrite add_use_grow_bounds.
Qed.

Lemma foldr_min_shift (a b : Z) (l : list Z) :
  foldr Z.min (Z.min a b) l = Z.min b (foldr Z.min a l).
Proof. induction l as [|x l IH]; simpl; lia. Qed.

Lemma foldr_max_shift (a b : Z) (l : list Z) :
  foldr Z.max (Z.max a b) l = Z.max b (foldr Z.max a l).
Proof. induction l as [|x l IH]; simpl; lia. Qed.

Lemma foldl_union_length (n : nat) (uses : list Box) (b0 : Box) :
  length b0 = n -> Forall (box_ok n) uses ->
  length (foldl (zip_with union_interval) b0 uses) = n.
Proof.
  intros H0 Huses. revert b0 H0.
  induction Huses as [|b uses [Hlen _] _ IH]; intros b0 H0; simpl; [exact H0|].
  apply IH. rewrite length_zip_with. lia.
Qed.

Lemma foldl_union_lookup (n : nat) (uses : list Box) (b0 : Box) (i : nat)
    (iv0 : Interval.t) :
  length b0 = n -> Forall (box_ok n) uses -> b0 !! i = Some iv0 ->
  foldl (zip_with union_interval) b0 uses !! i
  = Some (union_all iv0 (column i uses)).
Proof.
  intros H0 Huses. revert b0 iv0 H0.
  induction Huses as [|b uses [Hlen _] _ IH]; intros b0 iv0 H0 Hi; cbn [foldl].
  - rewrite Hi. by destruct iv0.
  - assert (Hlt : (i < length b)%nat).
    { apply lookup_lt_Some in Hi. lia. }
    destruct (lookup_lt_is_Some_2 b i Hlt) as [ivb Hivb].
    rewrite (IH _ (union_interval iv0 ivb)).
    + unfold column; simpl. rewrite Hivb. simpl. unfold union_all; simpl.
      f_equal. f_equal; [apply foldr_min_shift | apply foldr_max_shift].
    + rewrite length_zip_with. lia.
    + rewrite lookup_zip_with, Hi. simpl. by rewrite Hivb.
Qed.

(** The least min and the greatest max do not depend on the order in
    which the intervals are met. *)
Lemma foldr_min_least (a : Z) (l : list Z) :
  foldr Z.min a l ∈ a :: l /\ (forall y, y ∈ a :: l -> foldr Z.min a l <= y).
Proof.
  induction l as [|x l [IHin IHle]]; simpl.
  - split; [by left|]. intros y Hy. apply list_elem_of_singleton in Hy. lia.
  - split.
    + destruct (Z.min_spec x (foldr Z.min a l)) as [[_ ->]|[_ ->]].
      * right. by left.
      * apply elem_of_cons in IHin as [->|Hin]; [by left|]. right. by right.
    + intros y Hy. apply elem_of_cons in Hy as [->|Hy].
      * specialize (IHle a (ltac:(by left))). lia.
      * apply elem_of_cons in Hy as [->|Hy]; [lia|].
        specialize (IHle y (ltac:(by right))). lia.
Qed.

Lemma foldr_max_greatest (a : Z) (l : list Z) :
  foldr Z.max a l ∈ a :: l /\ (forall y, y ∈ a :: l -> y <= foldr Z.max a l).
Proof.
  induction l as [|x l [IHin IHle]]; simpl.
  - split; [by left|]. intros y Hy. apply list_elem_of_singleton in Hy. lia.
  - split.
    + destruct (Z.max_spec x (foldr Z.max a l)) as [[_ ->]|[_ ->]].
      * apply elem_of_cons in IHin as [->|Hin]; [by left|]. right. by right.
      * right. by left.
    + intros y Hy. apply elem_of_cons in Hy as [->|Hy].
      * specialize (IHle a (ltac:(by left))). lia.
      * apply elem_of_cons in Hy as [->|Hy]; [lia|].
        specialize (IHle y (ltac:(by right))). lia.
Qed.

Lemma foldr_min_perm (a a' : Z) (l l' : list Z) :
  a :: l ≡ₚ a' :: l' -> foldr Z.min a l = foldr Z.min a' l'.
Proof.
  intros HP.
  destruct (foldr_min_least a l) as [Hin Hle].
  destruct (foldr_min_least a' l') as [Hin' Hle'].
  rewrite HP in Hin. rewrite <- HP in Hin'.
  specialize (Hle _ Hin'). specialize (Hle' _ Hin). lia.
Qed.

Lemma foldr_max_perm (a a' : Z) (l l' : list Z) :
  a :: l ≡ₚ a' :: l' -> foldr Z.max a l = foldr Z.max a' l'.
Proof.
  intros HP.
  destruct (foldr_max_greatest a l) as [Hin Hle].
  destruct (foldr_max_greatest a' l') as [Hin' Hle'].
  rewrite HP in Hin. rewrite <- HP in Hin'.
  specialize (Hle _ Hin'). specialize (Hle' _ Hin). lia.
Qed.

Lemma union_all_perm (iv iv' : Interval.t) (ivs ivs' : list Interval.t) :
  iv :: ivs ≡ₚ iv' :: ivs' -> union_all iv ivs = union_all iv' ivs'.
Proof.
  intros HP. unfold union_all. f_equal.
  - apply foldr_min_perm. change (Interval.min <$> iv :: ivs ≡ₚ Interval.min <$> iv' :: ivs').
    by rewrite HP.
  - apply foldr_max_perm. change (Interval.max <$> iv :: ivs ≡ₚ Interval.max <$> iv' :: ivs').
    by rewrite HP.
Qed.

(** C4, against the code: [make_buffer] builds the storage's buffer with
    the buffer constructor that allocates, so after a first use with a
    dimension and no extent 0 the storage has data, and the second
    [add_use] stops at [assert(!buffer_.data())] instead of taking the
    union, whatever its type and bounds and whatever follows. So it
    does for min=-2,max=7 followed by min=0,max=9. *)
Theorem add_use_second_use_stops (ty : halide_type_t) (s0 : TensorStorage.t)
    (b0 b1 : Box) (rest : list Box) (n : nat) :
  TensorStorage.rank s0 = 0%nat ->
  b0 <> [] ->
  no_zero_extent b0 ->
  (exists s1, TensorStorage.add_use ty b0 s0 n = Done (s1, S n)
     /\ TensorStorage.is_allocated s1 = true)
  /\ add_uses ty (b0 :: b1 :: rest) s0 n = Fail AssertionFailure
  /\ add_uses int8 [[{| Interval.min := -2; Interval.max := 7 |}];
                    [{| Interval.min := 0; Interval.max := 9 |}]] s0 n
     = Fail AssertionFailure.
Proof.
  intros Hrank Hb0 Hnz.
  assert (Hfirst : forall ty' b, b <> [] -> no_zero_extent b ->
            TensorStorage.add_use ty' b s0 n
            = Done ({| TensorStorage.buffer_ :=
                         {| Buffer.type := ty'; Buffer.dim := box_dims b;
                            Buffer.data := Some n |} |}, S n)).
  { intros ty' b _ Hz. rewrite add_use_first by exact Hrank.
    unfold made. unfold no_zero_extent in Hz. by rewrite Hz. }
  assert (Hsecond : forall ty' b b' rest',
            b <> [] -> no_zero_extent b ->
            add_uses ty' (b :: b' :: rest') s0 n = Fail AssertionFailure).
  { intros ty' b b' rest' Hb Hz. cbn [add_uses]. unfold alloc_bind.
    rewrite (Hfirst ty' b Hb Hz). rewrite add_use_stops; [reflexivity| |].
    - unfold TensorStorage.rank, Buffer.dimensions, box_dims. simpl.
      rewrite length_fmap. by destruct b.
    - right. right. reflexivity. }
  split; [|split].
  - eexists. split; [by apply Hfirst | reflexivity].
  - by apply Hsecond.
  - by apply Hsecond.
Qed.

(** C7, as the code has it: on a storage whose buffer has at least one
    dimension, [add_use] with another type or another rank, and every
    [add_use] once the storage is allocated, stops at an assertion; with
    the storage's own type and rank, before allocation, it succeeds. *)
Theorem add_use_contract (ty : halide_type_t) (bounds : Box) (s : TensorStorage.t)
    (n : nat) :
  (TensorStorage.rank s <> 0%nat ->
   Buffer.type (TensorStorage.buffer_ s) <> ty
   \/ TensorStorage.rank s <> length bounds
   \/ TensorStorage.is_allocated s = true ->
   TensorStorage.add_use ty bounds s n = Fail AssertionFailure)
  /\ (Buffer.type (TensorStorage.buffer_ s) = ty ->
      TensorStorage.rank s = length bounds ->
      TensorStorage.is_allocated s = false ->
      exists s' n', TensorStorage.add_use ty bounds s n = Done (s', n')).
Proof.
  split.
  - intros Hn Hbad. unfold TensorStorage.add_use, TensorStorage.rank in *.
    rewrite bool_decide_eq_false_2 by exact Hn.
    destruct (decide (Buffer.type (TensorStorage.buffer_ s) = ty)) as [Hty|Hty].
    2:{ by rewrite (bool_decide_eq_false_2 _ Hty). }
    rewrite (bool_decide_eq_true_2 _ Hty). simpl.
    destruct (decide (Buffer.dimensions (TensorStorage.buffer_ s) = length bounds))
      as [Hlen|Hlen].
    2:{ by rewrite (bool_decide_eq_false_2 _ Hlen). }
    rewrite (bool_decide_eq_true_2 _ Hlen). simpl.
    destruct Hbad as [Hbad|[Hbad|Hbad]]; [done | done |].
    unfold TensorStorage.is_allocated in Hbad. by rewrite Hbad.
  - intros Hty Hlen Halloc.
    destruct (decide (TensorStorage.rank s = 0%nat)) as [H0|H0].
    + rewrite add_use_first by exact H0. eauto.
    + rewrite add_use_grow; eauto.
      unfold TensorStorage.is_allocated, Buffer.has_data in Halloc.
      apply bool_decide_eq_false in Halloc.
      destruct (Buffer.data (TensorStorage.buffer_ s)); [|reflexivity].
      exfalso. by apply Halloc.
Qed.

(** C7 fails as stated: a storage whose first use had no dimensions
    takes a second use of another type and rank, and a use after it was
    allocated, without any failure. *)
Lemma add_use_rank_0_never_fails :
  TensorStorage.add_use int8 [] TensorStorage.make 0%nat
  = Done ({| TensorStorage.buffer_ :=
               {| Buffer.type := int8; Buffer.dim := []; Buffer.data := Some 0%nat |} |},
          1%nat)
  /\ TensorStorage.is_allocated
       {| TensorStorage.buffer_ :=
            {| Buffer.type := int8; Buffer.dim := []; Buffer.data := Some 0%nat |} |}
     = true
  /\ TensorStorage.add_use float32 [{| Interval.min := 0; Interval.max := 3 |}]
       {| TensorStorage.buffer_ :=
            {| Buffer.type := int8; Buffer.dim := []; Buffer.data := Some 0%nat |} |}
       1%nat
     = Done ({| TensorStorage.buffer_ :=
                  {| Buffer.type := float32;
                     Buffer.dim := [{| Dim.min := 0; Dim.extent := 4 |}];
                     Buffer.data := Some 1%nat |} |}, 2%nat)
  /\ TensorStorage.is_allocated
       {| TensorStorage.buffer_ :=
            Buffer.make_with_shape_of 0%nat (unallocated int8 []) |}
     = true
  /\ TensorStorage.add_use int8 []
       {| TensorStorage.buffer_ :=
            Buffer.make_with_shape_of 0%nat (unallocated int8 []) |} 1%nat
     = Done ({| TensorStorage.buffer_ :=
                  {| Buffer.type := int8; Buffer.dim := []; Buffer.data := Some 1%nat |} |},
             2%nat).
Proof. repeat split. Qed.

(** ** Allocation *)

Section Allocation.
Context {QuantizationInfo : Type}.
Implicit Types (h : Heap QuantizationInfo) (t : Tensor QuantizationInfo).

Lemma has_data_true (b : Buffer.t) :
  Buffer.has_data b = true <-> exists p, Buffer.data b = Some p.
Proof.
  unfold Buffer.has_data. rewrite bool_decide_eq_true.
  destruct (Buffer.data b) as [p|]; split; try done; eauto.
  by intros [p Hp].
Qed.

Lemma has_data_false (b : Buffer.t) :
  Buffer.has_data b = false <-> Buffer.data b = None.
Proof.
  unfold Buffer.has_data. rewrite bool_decide_eq_false.
  destruct (Buffer.data b) as [p|]; split; try done.
  - intros H. by destruct H.
  - intros _ H. by apply H.
Qed.


(** C10: the first [storage()] of a tensor whose buffer holds data stops
    at the assertion of the [TensorStorage] constructor, and so does
    [set_alias_of] with that tensor as its target; on a tensor without
    data the first [storage()] makes a new storage from the tensor's
    buffer and binds it. *)
Theorem storage_of_allocated_tensor_fails h (p : TensorPtr) t :
  tensors_h h !! p = Some t ->
  storage_ t = None ->
  (Tensor_is_allocated t = true ->
     Tensor_storage p h = Fail AssertionFailure
     /\ forall a : TensorPtr, Tensor_set_alias_of a p h = Fail AssertionFailure)
  /\ (Tensor_is_allocated t = false ->
      exists h',
        Tensor_storage p h = Done (length (storages_h h), h')
        /\ storages_h h' = storages_h h ++ [{| TensorStorage.buffer_ := buffer_ t |}]
        /\ tensors_h h' = <[p := set_storage (length (storages_h h)) t]> (tensors_h h)).
Proof.
  intros Ht Hst. unfold Tensor_is_allocated.
  assert (Hstorage : Buffer.has_data (buffer_ t) = true ->
                     Tensor_storage p h = Fail AssertionFailure).
  { intros Hd. unfold Tensor_storage, bind, load_tensor. rewrite Ht, Hst.
    unfold lift, TensorStorage.make_from. by rewrite Hd. }
  split.
  - intros Hd. split; [by apply Hstorage|].
    intros a. unfold Tensor_set_alias_of, bind. by rewrite Hstorage.
  - intros Hd. unfold Tensor_storage, bind, load_tensor. rewrite Ht, Hst.
    unfold lift, TensorStorage.make_from. rewrite Hd. simpl.
    eexists. split; [reflexivity|]. by split.
Qed.

Lemma contains_refl (ds : list Dim.t) : contains ds ds.
Proof. unfold contains. induction ds; constructor; [lia | done]. Qed.

Lemma zipM_crop_dim (sds tds : list Dim.t) :
  length sds = length tds ->
  zipM crop_dim sds tds
  = if decide (contains sds tds) then Done tds else Fail AssertionFailure.
Proof.
  revert tds. induction sds as [|sd sds IH]; intros [|td tds] Hlen;
    cbn [zipM length] in *; try discriminate.
  - by rewrite decide_True by constructor.
  - unfold crop_dim at 1.
    destruct (decide (Dim.min sd <= Dim.min td)) as [Hmin|Hmin].
    2:{ rewrite (bool_decide_eq_false_2 _ Hmin). simpl.
        rewrite decide_False; [reflexivity|]. intros H. inversion H; subst. lia. }
    rewrite (bool_decide_eq_true_2 _ Hmin). simpl.
    destruct (decide (Dim.max sd >= Dim.max td)) as [Hmax|Hmax].
    2:{ rewrite (bool_decide_eq_false_2 _ Hmax). simpl.
        rewrite decide_False; [reflexivity|]. intros H. inversion H; subst. lia. }
    rewrite (bool_decide_eq_true_2 _ Hmax). simpl.
    rewrite IH by lia.
    destruct (decide (contains sds tds)) as [Hc|Hc]; simpl.
    + rewrite decide_True; [by destruct td|]. constructor; [lia | done].
    + rewrite decide_False; [reflexivity|]. intros H. by inversion H; subst.
Qed.

(** The loop of [Tensor::allocate], for a storage buffer of the
    tensor's rank. *)
Lemma crop_loop (own buffer : Buffer.t) :
  Buffer.dimensions buffer = Buffer.dimensions own ->
  foldM (crop_step own) buffer (seq 0 (Buffer.dimensions buffer))
  = if decide (contains (Buffer.dim buffer) (Buffer.dim own))
    then Done {| Buffer.type := Buffer.type buffer; Buffer.dim := Buffer.dim own;
                 Buffer.data := Buffer.data buffer |}
    else Fail AssertionFailure.
Proof.
  intros Hlen.
  rewrite (foldM_ext _ (dim_loop_step crop_dim (Buffer.dim own))).
  - rewrite foldM_dim_loop_0, zipM_crop_dim by exact Hlen.
    by destruct (decide _).
  - intros b i. unfold crop_step, dim_loop_step, crop_dim.
    destruct (Buffer.dim b !! i) as [sd|]; [|reflexivity].
    destruct (Buffer.dim own !! i) as [td|]; [|reflexivity]. simpl.
    destruct (bool_decide (Dim.min sd <= Dim.min td)); [|reflexivity].
    destruct (bool_decide (Dim.max sd >= Dim.max td)); reflexivity.
Qed.

Lemma load_tensor_eq h (p : TensorPtr) t :
  tensors_h h !! p = Some t -> load_tensor p h = Done (t, h).
Proof. intros H. unfold load_tensor. by rewrite H. Qed.

Lemma load_storage_eq h (p : StoragePtr) (s : TensorStorage.t) :
  storages_h h !! p = Some s -> load_storage p h = Done (s, h).
Proof. intros H. unfold load_storage. by rewrite H. Qed.

Lemma Tensor_storage_bound h (this : TensorPtr) t (p : StoragePtr) :
  tensors_h h !! this = Some t -> storage_ t = Some p ->
  Tensor_storage this h = Done (p, h).
Proof.
  intros Ht Hp. unfold Tensor_storage, bind. by rewrite (load_tensor_eq _ _ _ Ht), Hp.
Qed.

Lemma Tensor_storage_fresh h (this : TensorPtr) t :
  tensors_h h !! this = Some t -> storage_ t = None ->
  Buffer.has_data (buffer_ t) = false ->
  Tensor_storage this h
  = Done (length (storages_h h),
          {| tensors_h := <[this := set_storage (length (storages_h h)) t]> (tensors_h h);
             storages_h := storages_h h ++ [{| TensorStorage.buffer_ := buffer_ t |}];
             data_h := data_h h; ops_h := ops_h h |}).
Proof.
  intros Ht Hp Hd. unfold Tensor_storage, bind.
  rewrite (load_tensor_eq _ _ _ Ht), Hp.
  unfold lift, TensorStorage.make_from. by rewrite Hd.
Qed.

Lemma TensorStorage_allocate_eq h (p : StoragePtr) (s : TensorStorage.t) :
  storages_h h !! p = Some s ->
  TensorStorage_allocate p h
  = Done (tt, if Buffer.has_data (TensorStorage.buffer_ s) then h
              else {| tensors_h := tensors_h h;
                      storages_h :=
                        <[p := {| TensorStorage.buffer_ :=
                                    Buffer.make_with_shape_of (data_h h)
                                      (TensorStorage.buffer_ s) |}]> (storages_h h);
                      data_h := S (data_h h); ops_h := ops_h h |}).
Proof.
  intros Hs. unfold TensorStorage_allocate, bind.
  rewrite (load_storage_eq _ _ _ Hs).
  by destruct (Buffer.has_data (TensorStorage.buffer_ s)).
Qed.

Lemma set_storage_id t (p : StoragePtr) : storage_ t = Some p -> set_storage p t = t.
Proof. destruct t; simpl; intros ->; reflexivity. Qed.

(** What [Tensor::allocate] does on a tensor without data once
    [storage()] has answered [p]: [h1] is the store at that point, [t1]
    the tensor in it, [s] its storage. *)
Lemma Tensor_allocate_tail h1 (this : TensorPtr) t1 (p : StoragePtr)
    (s : TensorStorage.t) :
  tensors_h h1 !! this = Some t1 ->
  storage_ t1 = Some p ->
  storages_h h1 !! p = Some s ->
  TensorStorage.rank s = Buffer.dimensions (buffer_ t1) ->
  let tail :=
    bind (TensorStorage_allocate p) (fun _ =>
    bind (Tensor_storage this) (fun p' =>
    bind (load_storage p') (fun s' =>
    bind (load_tensor this) (fun t' =>
    bind (lift (foldM (crop_step (buffer_ t')) (TensorStorage.buffer_ s')
                  (seq 0 (Buffer.dimensions (TensorStorage.buffer_ s')))))
         (fun buffer' => store_tensor this (set_buffer buffer' t')))))) in
  (contains (Buffer.dim (TensorStorage.buffer_ s)) (Buffer.dim (buffer_ t1)) ->
   exists h2 s2,
     tail h1 = Done (tt, h2)
     /\ storages_h h2 !! p = Some s2
     /\ TensorStorage.is_allocated s2 = true
     /\ tensors_h h2 !! this
        = Some (set_buffer
                  {| Buffer.type := Buffer.type (TensorStorage.buffer_ s2);
                     Buffer.dim := Buffer.dim (buffer_ t1);
                     Buffer.data := Buffer.data (TensorStorage.buffer_ s2) |} t1))
  /\ (~ contains (Buffer.dim (TensorStorage.buffer_ s)) (Buffer.dim (buffer_ t1)) ->
      tail h1 = Fail AssertionFailure).
Proof.
  intros Ht Hp Hs Hrank tail.
  pose proof (lookup_lt_Some _ _ _ Ht) as Hlt.
  pose proof (lookup_lt_Some _ _ _ Hs) as Hlts.
  assert (Htail : exists h2 s2,
    storages_h h2 !! p = Some s2
    /\ TensorStorage.is_allocated s2 = true
    /\ tail h1
       = (if decide (contains (Buffer.dim (TensorStorage.buffer_ s)) (Buffer.dim (buffer_ t1)))
          then Done (tt, {| tensors_h :=
                              <[this := set_buffer
                                  {| Buffer.type := Buffer.type (TensorStorage.buffer_ s2);
                                     Buffer.dim := Buffer.dim (buffer_ t1);
                                     Buffer.data := Buffer.data (TensorStorage.buffer_ s2) |} t1]>
                                (tensors_h h1);
                            storages_h := storages_h h2;
                            data_h := data_h h2; ops_h := ops_h h2 |})
          else Fail AssertionFailure)).
  { unfold tail, bind at 1. rewrite (TensorStorage_allocate_eq _ _ _ Hs).
    destruct (Buffer.has_data (TensorStorage.buffer_ s)) eqn:Hd.
    - exists h1, s. split; [done|]. split; [done|].
      unfold bind. rewrite (Tensor_storage_bound _ _ _ _ Ht Hp).
      rewrite (load_storage_eq _ _ _ Hs), (load_tensor_eq _ _ _ Ht).
      unfold lift. rewrite crop_loop by exact Hrank.
      by destruct (decide _).
    - set (s2 := {| TensorStorage.buffer_ :=
                      Buffer.make_with_shape_of (data_h h1) (TensorStorage.buffer_ s) |}).
      set (h2 := {| tensors_h := tensors_h h1;
                    storages_h := <[p := s2]> (storages_h h1);
                    data_h := S (data_h h1); ops_h := ops_h h1 |}).
      assert (Hs2 : storages_h h2 !! p = Some s2)
        by (by apply list_lookup_insert_eq).
      exists h2, s2. split; [exact Hs2|]. split; [reflexivity|].
      unfold bind. rewrite (Tensor_storage_bound h2 _ _ _ Ht Hp).
      rewrite (load_storage_eq _ _ _ Hs2), (load_tensor_eq h2 _ _ Ht).
      unfold lift. rewrite crop_loop by exact Hrank.
      by destruct (decide _). }
  destruct Htail as (h2 & s2 & Hs2 & Hal & Htail). split.
  - intros Hc. rewrite decide_True in Htail by exact Hc.
    eexists _, s2. split; [exact Htail|]. simpl.
    split; [exact Hs2|]. split; [exact Hal|].
    by apply list_lookup_insert_eq.
  - intros Hc. by rewrite decide_False in Htail by exact Hc.
Qed.

Lemma Tensor_allocate_unfold h (this : TensorPtr) t :
  tensors_h h !! this = Some t ->
  Buffer.has_data (buffer_ t) = false ->
  Tensor_allocate this h
  = match Tensor_storage this h with
    | Done (p, h1) =>
        bind (TensorStorage_allocate p) (fun _ =>
        bind (Tensor_storage this) (fun p' =>
        bind (load_storage p') (fun s' =>
        bind (load_tensor this) (fun t' =>
        bind (lift (foldM (crop_step (buffer_ t')) (TensorStorage.buffer_ s')
                      (seq 0 (Buffer.dimensions (TensorStorage.buffer_ s')))))
             (fun buffer' => store_tensor this (set_buffer buffer' t')))))) h1
    | Fail e => Fail e
    end.
Proof.
  intros Ht Hd. unfold Tensor_allocate. unfold bind at 1.
  rewrite (load_tensor_eq _ _ _ Ht), Hd. reflexivity.
Qed.

(** C6, as the code has it: on a tensor without data whose storage, if
    it is bound to one, has the tensor's rank, [Tensor::allocate]
    succeeds when the storage's dimensions contain the tensor's, and then
    the storage is allocated and the tensor's buffer is the storage's
    with exactly the tensor's own dimensions; it stops at an assertion
    when they do not. The loop runs over the storage's dimensions, so a
    storage of another rank is another matter. *)
Theorem Tensor_allocate_crops h (this : TensorPtr) t :
  tensors_h h !! this = Some t ->
  Tensor_is_allocated t = false ->
  (forall p : StoragePtr, storage_ t = Some p -> is_Some (storages_h h !! p)) ->
  length (backing_dims h t) = Buffer.dimensions (buffer_ t) ->
  (contains (backing_dims h t) (Buffer.dim (buffer_ t)) ->
   exists h' (p : StoragePtr) (s : TensorStorage.t),
     Tensor_allocate this h = Done (tt, h')
     /\ storages_h h' !! p = Some s
     /\ TensorStorage.is_allocated s = true
     /\ tensors_h h' !! this
        = Some (set_buffer
                  {| Buffer.type := Buffer.type (TensorStorage.buffer_ s);
                     Buffer.dim := Buffer.dim (buffer_ t);
                     Buffer.data := Buffer.data (TensorStorage.buffer_ s) |}
                  (set_storage p t)))
  /\ (~ contains (backing_dims h t) (Buffer.dim (buffer_ t)) ->
      Tensor_allocate this h = Fail AssertionFailure).
Proof.
  intros Ht Hd Hbound Hrank. unfold Tensor_is_allocated in Hd.
  pose proof (lookup_lt_Some _ _ _ Ht) as Hlt.
  rewrite (Tensor_allocate_unfold _ _ _ Ht Hd). unfold backing_dims in *.
  destruct (storage_ t) as [p0|] eqn:Hp.
  - destruct (Hbound p0 eq_refl) as [s0 Hs0]. rewrite Hs0 in *.
    rewrite (Tensor_storage_bound _ _ _ _ Ht Hp).
    destruct (Tensor_allocate_tail h this t p0 s0 Ht Hp Hs0 Hrank) as [Hok Hfail].
    split; [|exact Hfail].
    intros Hc. destruct (Hok Hc) as (h2 & s2 & Hrun & Hs2 & Hal & Ht2).
    exists h2, p0, s2. rewrite (set_storage_id _ _ Hp). by repeat split.
  - rewrite (Tensor_storage_fresh _ _ _ Ht Hp Hd).
    set (p0 := length (storages_h h)).
    set (h1 := {| tensors_h := <[this := set_storage p0 t]> (tensors_h h);
                  storages_h := storages_h h ++ [{| TensorStorage.buffer_ := buffer_ t |}];
                  data_h := data_h h; ops_h := ops_h h |}).
    assert (Ht1 : tensors_h h1 !! this = Some (set_storage p0 t))
      by (by apply list_lookup_insert_eq).
    assert (Hs1 : storages_h h1 !! p0 = Some {| TensorStorage.buffer_ := buffer_ t |})
      by (by apply list_lookup_middle).
    destruct (Tensor_allocate_tail h1 this (set_storage p0 t) p0 _ Ht1 eq_refl Hs1 eq_refl)
      as [Hok _].
    split; [|intros Hc; destruct Hc; apply contains_refl].
    intros _. destruct (Hok (contains_refl _)) as (h2 & s2 & Hrun & Hs2 & Hal & Ht2).
    exists h2, p0, s2. by repeat split.
Qed.

End Allocation.

(** ** Aliasing *)

Lemma covers_refl (b : Box) : covers b b.
Proof. intros i iv Hi. exists iv. split; [done | lia]. Qed.

Lemma covers_nil (sb tb : Box) : length tb = 0%nat -> covers sb tb.
Proof. intros Hlen i iv Hi. apply lookup_lt_Some in Hi. lia. Qed.

Lemma covers_length (sb tb : Box) : covers sb tb -> (length tb <= length sb)%nat.
Proof.
  intros Hc. destruct (decide (length tb <= length sb)%nat) as [|Hn]; [done|].
  destruct (lookup_lt_is_Some_2 tb (length sb)) as [iv Hiv]; [lia|].
  destruct (Hc _ _ Hiv) as (siv & Hs & _). apply lookup_lt_Some in Hs. lia.
Qed.

Lemma covers_union_l (sb ab tb : Box) :
  length sb = length ab -> covers sb tb ->
  covers (zip_with union_interval sb ab) tb.
Proof.
  intros Hlen Hc i iv Hi. destruct (Hc _ _ Hi) as (siv & Hs & Hmin & Hmax).
  destruct (lookup_lt_is_Some_2 ab i) as [aiv Ha].
  { apply lookup_lt_Some in Hs. lia. }
  exists (union_interval siv aiv). rewrite lookup_zip_with, Hs. simpl. rewrite Ha.
  split; [done|]. unfold union_interval; simpl. lia.
Qed.

Lemma covers_union_r (sb ab : Box) :
  length sb = length ab -> covers (zip_with union_interval sb ab) ab.
Proof.
  intros Hlen i aiv Ha.
  destruct (lookup_lt_is_Some_2 sb i) as [siv Hs].
  { apply lookup_lt_Some in Ha. lia. }
  exists (union_interval siv aiv). rewrite lookup_zip_with, Hs. simpl. rewrite Ha.
  split; [done|]. unfold union_interval; simpl. lia.
Qed.

Lemma add_use_inv (ty : halide_type_t) (bounds : Box) (s s' : TensorStorage.t)
    (n n' : nat) :
  TensorStorage.add_use ty bounds s n = Done (s', n') ->
  (TensorStorage.rank s = 0%nat
   /\ s' = {| TensorStorage.buffer_ := (made ty bounds n).1 |}
   /\ n' = (made ty bounds n).2)
  \/ (TensorStorage.rank s <> 0%nat
      /\ TensorStorage.rank s = length bounds
      /\ s' = {| TensorStorage.buffer_ :=
                   {| Buffer.type := ty;
                      Buffer.dim := zip_with grow (Buffer.dim (TensorStorage.buffer_ s)) bounds;
                      Buffer.data := None |} |}
      /\ n' = n).
Proof.
  intros Hrun. destruct (decide (TensorStorage.rank s = 0%nat)) as [H0|H0].
  - left. rewrite add_use_first in Hrun by exact H0. by inversion Hrun.
  - right.
    destruct (decide (Buffer.type (TensorStorage.buffer_ s) = ty)) as [Hty|Hty].
    2:{ rewrite add_use_stops in Hrun; [discriminate|exact H0|by left]. }
    destruct (decide (TensorStorage.rank s = length bounds)) as [Hlen|Hlen].
    2:{ rewrite add_use_stops in Hrun; [discriminate|exact H0|by right; left]. }
    destruct (Buffer.data (TensorStorage.buffer_ s)) as [d|] eqn:Hd.
    { rewrite add_use_stops in Hrun; [discriminate|exact H0|].
      right. right. unfold TensorStorage.is_allocated, Buffer.has_data. by rewrite Hd. }
    rewrite (add_use_grow ty bounds s n H0 Hty Hlen Hd) in Hrun.
    inversion Hrun. by repeat split.
Qed.

Lemma bounds_length (s : TensorStorage.t) :
  length (TensorStorage.bounds s) = TensorStorage.rank s.
Proof. unfold TensorStorage.bounds. by rewrite length_map. Qed.

Lemma add_use_covers (ty : halide_type_t) (s s' : TensorStorage.t) (ab tb : Box)
    (n n' : nat) :
  Forall interval_in_int ab ->
  covers (TensorStorage.bounds s) tb ->
  TensorStorage.add_use ty ab s n = Done (s', n') ->
  covers (TensorStorage.bounds s') ab /\ covers (TensorStorage.bounds s') tb.
Proof.
  intros Hab Hc Hrun.
  destruct (add_use_inv _ _ _ _ _ _ Hrun) as [(H0 & -> & _)|(H0 & Hlen & -> & _)].
  - rewrite make_buffer_bounds by exact Hab. split; [apply covers_refl|].
    apply covers_nil. apply covers_length in Hc. rewrite bounds_length in Hc. lia.
  - rewrite add_use_grow_bounds by exact Hab.
    pose proof (bounds_length s) as Hbl. split.
    + apply covers_union_r. lia.
    + apply covers_union_l; [lia | exact Hc].
Qed.

Section Aliasing.
Context {QuantizationInfo : Type}.
Implicit Types (h : Heap QuantizationInfo) (t : Tensor QuantizationInfo).

Lemma Tensor_box_in_int t :
  buffer_in_int (buffer_ t) -> Forall interval_in_int (Tensor_box t).
Proof.
  unfold buffer_in_int, Tensor_box. intros H. induction H as [|d ds Hd _ IH]; simpl.
  - constructor.
  - constructor; [|exact IH]. split; [exact Hd | apply Dim_max_in_int].
Qed.

Lemma Tensor_storage_inv h (this : TensorPtr) t (p : StoragePtr) h1 :
  tensors_h h !! this = Some t ->
  Tensor_storage this h = Done (p, h1) ->
  (storage_ t = Some p /\ h1 = h)
  \/ (storage_ t = None /\ Buffer.has_data (buffer_ t) = false
      /\ p = length (storages_h h)
      /\ h1 = {| tensors_h := <[this := set_storage p t]> (tensors_h h);
                 storages_h := storages_h h ++ [{| TensorStorage.buffer_ := buffer_ t |}];
                 data_h := data_h h; ops_h := ops_h h |}).
Proof.
  intros Ht Hrun. destruct (storage_ t) as [p0|] eqn:Hp.
  - rewrite (Tensor_storage_bound _ _ _ _ Ht Hp) in Hrun. inversion Hrun; subst. by left.
  - destruct (Buffer.has_data (buffer_ t)) eqn:Hd.
    + unfold Tensor_storage, bind in Hrun.
      rewrite (load_tensor_eq _ _ _ Ht), Hp in Hrun.
      unfold lift, TensorStorage.make_from in Hrun. rewrite Hd in Hrun. discriminate.
    + rewrite (Tensor_storage_fresh _ _ _ Ht Hp Hd) in Hrun. inversion Hrun; subst.
      right. by repeat split.
Qed.

Lemma TensorStorage_add_use_inv h (p : StoragePtr) (ty : halide_type_t)
    (bounds : Box) h' :
  TensorStorage_add_use p ty bounds h = Done (tt, h') ->
  exists s s' n',
    storages_h h !! p = Some s
    /\ TensorStorage.add_use ty bounds s (data_h h) = Done (s', n')
    /\ h' = {| tensors_h := tensors_h h; storages_h := <[p := s']> (storages_h h);
               data_h := n'; ops_h := ops_h h |}.
Proof.
  unfold TensorStorage_add_use, bind, load_storage. intros Hrun.
  destruct (storages_h h !! p) as [s|] eqn:Hs; [|discriminate].
  unfold with_allocator in Hrun.
  destruct (TensorStorage.add_use ty bounds s (data_h h)) as [[s' n']|e] eqn:Hadd;
    [|discriminate].
  exists s, s', n'. unfold store_storage in Hrun. inversion Hrun. by repeat split.
Qed.

Lemma TensorStorage_add_use_eq h (p : StoragePtr) (ty : halide_type_t)
    (bounds : Box) (s s' : TensorStorage.t) (n' : nat) :
  storages_h h !! p = Some s ->
  TensorStorage.add_use ty bounds s (data_h h) = Done (s', n') ->
  TensorStorage_add_use p ty bounds h
  = Done (tt, {| tensors_h := tensors_h h; storages_h := <[p := s']> (storages_h h);
                 data_h := n'; ops_h := ops_h h |}).
Proof.
  intros Hs Hadd. unfold TensorStorage_add_use, bind.
  rewrite (load_storage_eq _ _ _ Hs). unfold with_allocator. by rewrite Hadd.
Qed.

Lemma set_alias_of_unfold h (this b : TensorPtr) :
  Tensor_set_alias_of this b h
  = match Tensor_storage b h with
    | Done (p, h1) =>
        match tensors_h h1 !! this with
        | Some self =>
            TensorStorage_add_use p (Tensor_type self) (Tensor_box self)
              {| tensors_h := <[this := set_storage p self]> (tensors_h h1);
                 storages_h := storages_h h1;
                 data_h := data_h h1; ops_h := ops_h h1 |}
        | None => Fail InvalidAccess
        end
    | Fail e => Fail e
    end.
Proof.
  unfold Tensor_set_alias_of. unfold bind at 1.
  destruct (Tensor_storage b h) as [[p h1]|e]; [|reflexivity].
  unfold bind at 1. unfold load_tensor at 1.
  destruct (tensors_h h1 !! this) as [self|] eqn:Hself; [|reflexivity].
  unfold bind, store_tensor, load_tensor. simpl.
  rewrite list_lookup_insert_eq by (by apply lookup_lt_Some in Hself).
  reflexivity.
Qed.

(** The store right after [t->storage()] in [set_alias_of]. *)
Lemma Tensor_storage_post h (a b : TensorPtr) ta tb (p : StoragePtr) h1 :
  tensors_h h !! a = Some ta ->
  tensors_h h !! b = Some tb ->
  Tensor_storage b h = Done (p, h1) ->
  exists ta1 tb1,
    tensors_h h1 !! a = Some ta1 /\ tensors_h h1 !! b = Some tb1
    /\ buffer_ ta1 = buffer_ ta /\ buffer_ tb1 = buffer_ tb
    /\ storage_ tb1 = Some p
    /\ storages_h h1 !! p = backing_storage h tb.
Proof.
  intros Ha Hb Hrun.
  destruct (Tensor_storage_inv _ _ _ _ _ Hb Hrun) as [[Hp ->]|(Hp & Hd & -> & ->)].
  - exists ta, tb. unfold backing_storage. rewrite Hp. by repeat split.
  - unfold backing_storage. rewrite Hp. simpl.
    pose proof (lookup_lt_Some _ _ _ Hb) as Hlt.
    destruct (decide (a = b)) as [->|Hne].
    + exists (set_storage (length (storages_h h)) tb), (set_storage (length (storages_h h)) tb).
      rewrite list_lookup_insert_eq by exact Hlt.
      rewrite list_lookup_middle by reflexivity.
      assert (ta = tb) by congruence. subst. by repeat split.
    + exists ta, (set_storage (length (storages_h h)) tb).
      rewrite list_lookup_insert_ne by done.
      rewrite list_lookup_insert_eq by exact Hlt.
      rewrite list_lookup_middle by reflexivity. by repeat split.
Qed.

Lemma Tensor_box_buffer t t' : buffer_ t = buffer_ t' -> Tensor_box t = Tensor_box t'.
Proof. unfold Tensor_box. by intros ->. Qed.

Lemma Tensor_type_buffer t t' : buffer_ t = buffer_ t' -> Tensor_type t = Tensor_type t'.
Proof. unfold Tensor_type. by intros ->. Qed.

(** C5: when [A.set_alias_of(B)] returns, [A.storage()] and
    [B.storage()] answer the same storage, without changing the store,
    and that storage's bounds cover, in every dimension, the bounds of
    [A] and the bounds of [B]. It does return whenever [B] has or can make
    a storage and that storage either has no dimensions yet or has the
    type and rank of [A] and is not allocated. *)
Theorem set_alias_of_shares_storage h (a b : TensorPtr) ta tb :
  tensors_h h !! a = Some ta ->
  tensors_h h !! b = Some tb ->
  buffer_in_int (buffer_ ta) ->
  (forall s, backing_storage h tb = Some s ->
     covers (TensorStorage.bounds s) (Tensor_box tb)) ->
  ((storage_ tb = None -> Tensor_is_allocated tb = false) ->
   (exists s, backing_storage h tb = Some s
      /\ (TensorStorage.rank s = 0%nat
          \/ (Buffer.type (TensorStorage.buffer_ s) = Tensor_type ta
              /\ TensorStorage.rank s = Buffer.dimensions (buffer_ ta)
              /\ TensorStorage.is_allocated s = false))) ->
   exists h', Tensor_set_alias_of a b h = Done (tt, h'))
  /\ (forall h', Tensor_set_alias_of a b h = Done (tt, h') ->
      exists (p : StoragePtr) (s : TensorStorage.t) ta' tb',
        tensors_h h' !! a = Some ta' /\ tensors_h h' !! b = Some tb'
        /\ buffer_ ta' = buffer_ ta /\ buffer_ tb' = buffer_ tb
        /\ Tensor_storage a h' = Done (p, h')
        /\ Tensor_storage b h' = Done (p, h')
        /\ storages_h h' !! p = Some s
        /\ covers (TensorStorage.bounds s) (Tensor_box ta)
        /\ covers (TensorStorage.bounds s) (Tensor_box tb)).
Proof.
  intros Ha Hb Hint Hcov. rewrite set_alias_of_unfold. split.
  - intros Hfresh (s & Hback & Hs).
    assert (Hst : exists p h1, Tensor_storage b h = Done (p, h1)).
    { destruct (storage_ tb) as [p|] eqn:Hp.
      - exists p, h. by apply (Tensor_storage_bound _ _ tb).
      - eexists _, _. by apply (Tensor_storage_fresh _ _ tb); [| |apply Hfresh]. }
    destruct Hst as (p & h1 & Hst). rewrite Hst.
    destruct (Tensor_storage_post _ _ _ _ _ _ _ Ha Hb Hst)
      as (ta1 & tb1 & Ha1 & Hb1 & Hba & Hbb & Hp1 & Hs1).
    rewrite Ha1. rewrite Hback in Hs1.
    rewrite (Tensor_type_buffer _ _ Hba), (Tensor_box_buffer _ _ Hba).
    assert (Hadd : forall n, exists s' n',
              TensorStorage.add_use (Tensor_type ta) (Tensor_box ta) s n = Done (s', n')).
    { intros n. destruct (decide (TensorStorage.rank s = 0%nat)) as [H0|H0].
      - rewrite add_use_first by exact H0. eauto.
      - destruct Hs as [Hs|(Hty & Hrank & Hal)]; [done|].
        rewrite add_use_grow; eauto.
        + unfold Tensor_box. by rewrite length_map.
        + by apply has_data_false. }
    destruct (Hadd (data_h h1)) as (s' & n' & Hadd').
    erewrite TensorStorage_add_use_eq; [eauto | exact Hs1 | exact Hadd'].
  - intros h' Hrun.
    destruct (Tensor_storage b h) as [[p h1]|e] eqn:Hst; [|discriminate].
    destruct (Tensor_storage_post _ _ _ _ _ _ _ Ha Hb Hst)
      as (ta1 & tb1 & Ha1 & Hb1 & Hba & Hbb & Hp1 & Hs1).
    rewrite Ha1 in Hrun.
    rewrite (Tensor_type_buffer _ _ Hba), (Tensor_box_buffer _ _ Hba) in Hrun.
    apply TensorStorage_add_use_inv in Hrun as (s & s' & n' & Hs & Hadd & ->).
    simpl in Hs. rewrite Hs1 in Hs.
    destruct (add_use_covers _ _ _ _ (Tensor_box tb) _ _ (Tensor_box_in_int _ Hint)
                (Hcov _ Hs) Hadd) as [Hca Hcb].
    pose proof (lookup_lt_Some _ _ _ Ha1) as Hlta.
    assert (Hltp : (p < length (storages_h h1))%nat).
    { rewrite <- Hs1 in Hs. by apply lookup_lt_Some in Hs. }
    assert (Ha' : <[a := set_storage p ta1]> (tensors_h h1) !! a = Some (set_storage p ta1))
      by (by apply list_lookup_insert_eq).
    assert (Hb' : exists tb', <[a := set_storage p ta1]> (tensors_h h1) !! b = Some tb'
                    /\ buffer_ tb' = buffer_ tb /\ storage_ tb' = Some p).
    { destruct (decide (a = b)) as [->|Hne].
      - exists (set_storage p ta1). split; [exact Ha'|]. split; [|reflexivity].
        simpl. congruence.
      - exists tb1. rewrite list_lookup_insert_ne by done. by repeat split. }
    destruct Hb' as (tb' & Hb' & Hbb' & Hp').
    exists p, s', (set_storage p ta1), tb'.
    split; [exact Ha'|]. split; [exact Hb'|]. split; [exact Hba|]. split; [exact Hbb'|].
    split; [by apply (Tensor_storage_bound _ _ (set_storage p ta1))|].
    split; [by apply (Tensor_storage_bound _ _ tb')|].
    split; [by apply list_lookup_insert_eq|]. by split.
Qed.

End Aliasing.

(** ** Copying a model *)

Section Copy.
Context {QuantizationInfo : Type}.
Implicit Types (h : Heap QuantizationInfo) (t : Tensor QuantizationInfo).

(** The first loop only adds tensors at new addresses. For each position
    it keeps the pointer of an allocated tensor and puts the address of
    a new copy in place of an unallocated one, and the map it builds
    sends each unallocated tensor of the list to a copy standing at one
    of its positions, and nothing else. *)
Lemma clone_tensors_spec (ts : list TensorPtr) :
  forall h (map : TensorMap),
    Forall (fun p => is_Some (tensors_h h !! p)) ts ->
    exists (ts' : list TensorPtr) (map' : TensorMap) (new : list (Tensor QuantizationInfo)),
      clone_tensors ts map h
      = Done ((ts', map'),
              {| tensors_h := tensors_h h ++ new; storages_h := storages_h h;
                 data_h := data_h h; ops_h := ops_h h |})
      /\ length ts' = length ts
      /\ (forall k p t, ts !! k = Some p -> tensors_h h !! p = Some t ->
            if Tensor_is_allocated t then ts' !! k = Some p
            else exists p' : TensorPtr,
                   ts' !! k = Some p'
                   /\ (length (tensors_h h) <= p')%nat
                   /\ (tensors_h h ++ new) !! p' = Some (Tensor_copy t))
      /\ (forall q t, q ∈ ts -> tensors_h h !! q = Some t ->
            Tensor_is_allocated t = false ->
            exists k, ts !! k = Some q /\ ts' !! k = map' !! q)
      /\ (forall q, q ∉ ts
                    \/ (exists t, tensors_h h !! q = Some t
                                  /\ Tensor_is_allocated t = true) ->
            map' !! q = map !! q).
Proof.
  induction ts as [|i rest IH]; intros h map Hvalid.
  - exists [], map, []. simpl. unfold ret. rewrite app_nil_r.
    split; [by destruct h|]. split; [done|]. split; [done|].
    split; [|done]. intros q t Hq. by apply elem_of_nil in Hq.
  - apply Forall_cons in Hvalid as [[ti Hi] Hvalid].
    cbn [clone_tensors]. unfold bind at 1. rewrite (load_tensor_eq _ _ _ Hi).
    destruct (Tensor_is_allocated ti) eqn:Hal; cbn [negb].
    + destruct (IH h map Hvalid) as (ts' & map' & new & Hrun & Hlen & Hpos & Hmap & Hout).
      exists (i :: ts'), map', new. unfold bind. rewrite Hrun. simpl. unfold ret.
      split; [done|]. split; [by rewrite Hlen|]. split; [|split].
      * intros [|k] p t Hk Hp; simpl in Hk.
        -- inversion Hk; subst. rewrite Hi in Hp. inversion Hp; subst. by rewrite Hal.
        -- by apply Hpos.
      * intros q t Hq Ht Hq_un. apply elem_of_cons in Hq as [->|Hq].
        -- rewrite Hi in Ht. inversion Ht; subst. congruence.
        -- destruct (Hmap q t Hq Ht Hq_un) as (k & Hk & Hk'). by exists (S k).
      * intros q Hq. apply Hout. destruct Hq as [Hq|Hq]; [|by right].
        left. intros Hin. apply Hq. by right.
    + set (cloned := length (tensors_h h)).
      set (h1 := {| tensors_h := tensors_h h ++ [Tensor_copy ti];
                    storages_h := storages_h h; data_h := data_h h; ops_h := ops_h h |}).
      assert (Hvalid1 : Forall (fun p => is_Some (tensors_h h1 !! p)) rest).
      { eapply Forall_impl; [exact Hvalid|]. intros p [t Hp]. exists t.
        simpl. by apply lookup_app_l_Some. }
      destruct (IH h1 (<[i := cloned]> map) Hvalid1)
        as (ts' & map' & new & Hrun & Hlen & Hpos & Hmap & Hout).
      exists (cloned :: ts'), map', (Tensor_copy ti :: new).
      unfold bind at 1. unfold new_tensor at 1. fold cloned. fold h1.
      unfold bind. rewrite Hrun. simpl. unfold ret.
      rewrite <- app_assoc. simpl.
      split; [done|]. split; [by rewrite Hlen|]. split; [|split].
      * intros [|k] p t Hk Hp; simpl in Hk.
        -- inversion Hk; subst. rewrite Hi in Hp. inversion Hp; subst. rewrite Hal.
           exists cloned. split; [done|]. split; [done|].
           by apply list_lookup_middle.
        -- specialize (Hpos k p t Hk). simpl in Hpos.
           rewrite (lookup_app_l_Some _ _ _ _ Hp) in Hpos. specialize (Hpos eq_refl).
           destruct (Tensor_is_allocated t); [done|].
           destruct Hpos as (p' & Hp' & Hfresh & Hcopy). exists p'.
           split; [done|]. rewrite length_app in Hfresh. simpl in Hfresh.
           split; [lia|]. by rewrite <- app_assoc in Hcopy.
      * intros q t Hq Ht Hq_un.
        destruct (decide (q ∈ rest)) as [Hin|Hnin].
        -- destruct (Hmap q t Hin) as (k & Hk & Hk'); [|done|].
           { simpl. by apply lookup_app_l_Some. }
           by exists (S k).
        -- apply elem_of_cons in Hq as [->|Hq]; [|done].
           exists 0%nat. split; [done|]. simpl.
           rewrite Hout by (by left). by rewrite lookup_insert_eq.
      * intros q Hq.
        assert (Hqi : q <> i).
        { intros ->. destruct Hq as [Hq|(t & Ht & Ht_al)].
          - apply Hq. by left.
          - rewrite Hi in Ht. inversion Ht; subst. congruence. }
        rewrite Hout.
        -- by rewrite lookup_insert_ne.
        -- destruct Hq as [Hq|(t & Ht & Ht_al)].
           ++ left. intros Hin. apply Hq. by right.
           ++ right. exists t. split; [|done]. simpl. by apply lookup_app_l_Some.
Qed.

(** The second loop clones each op through [apply]; it touches no
    tensor and no storage. *)
Lemma clone_ops_spec (map : TensorMap) (os : list Op) :
  forall h,
    exists os' : list Op,
      clone_ops map os h
      = Done (os', {| tensors_h := tensors_h h; storages_h := storages_h h;
                      data_h := data_h h; ops_h := (ops_h h + length os)%nat |})
      /\ Forall2 (fun o o' => inputs o' = apply map <$> inputs o
                              /\ outputs o' = apply map <$> outputs o) os os'.
Proof.
  induction os as [|o os IH]; intros h.
  - exists []. simpl. unfold ret. rewrite Nat.add_0_r. split; [by destruct h | constructor].
  - cbn [clone_ops]. unfold bind at 1. unfold Op_clone, bind, new_op, ret. simpl.
    destruct (IH {| tensors_h := tensors_h h; storages_h := storages_h h;
                    data_h := data_h h; ops_h := S (ops_h h) |}) as (os' & Hrun & Hall).
    unfold bind, ret in Hrun. rewrite Hrun. simpl.
    eexists. split.
    + do 3 f_equal. lia.
    + constructor; [by split | exact Hall].
Qed.

(** C1: copying a model whose tensors all exist succeeds and leaves
    every existing tensor and storage as it was. At the position of an
    allocated tensor the copy holds the very same pointer. At the
    position of an unallocated tensor it holds a new address, where a
    tensor with the same name, type, bounds and quantization, without
    data and without storage, now stands; a write at either of the two
    addresses leaves the tensor at the other one alone. Each op of the
    copy has the tensors of the op at its position, passed through a map
    that sends an allocated tensor, and any tensor outside the model, to
    itself and an unallocated tensor of the model to a copy of it
    standing at one of its positions. *)
Theorem Model_copy_shares_allocated h (m : Model) :
  Forall (fun p => is_Some (tensors_h h !! p)) (tensors m) ->
  exists (m' : Model) h' (map : TensorMap),
    Model_copy m h = Done (m', h')
    /\ (exists new, tensors_h h' = tensors_h h ++ new)
    /\ storages_h h' = storages_h h
    /\ length (tensors m') = length (tensors m)
    /\ (forall k p t, tensors m !! k = Some p -> tensors_h h !! p = Some t ->
          if Tensor_is_allocated t then
            tensors m' !! k = Some p /\ tensors_h h' !! p = Some t
          else
            exists (p' : TensorPtr) t',
              tensors m' !! k = Some p'
              /\ p' <> p
              /\ tensors_h h !! p' = None
              /\ tensors_h h' !! p = Some t
              /\ tensors_h h' !! p' = Some t'
              /\ name_ t' = name_ t
              /\ Tensor_type t' = Tensor_type t
              /\ Tensor_box t' = Tensor_box t
              /\ quantization_ t' = quantization_ t
              /\ Tensor_is_allocated t' = false
              /\ storage_ t' = None
              /\ (forall x, <[p := x]> (tensors_h h') !! p' = Some t')
              /\ (forall x, <[p' := x]> (tensors_h h') !! p = Some t))
    /\ Forall2 (fun o o' => inputs o' = apply map <$> inputs o
                            /\ outputs o' = apply map <$> outputs o)
               (ops m) (ops m')
    /\ (forall q t, q ∈ tensors m -> tensors_h h !! q = Some t ->
          if Tensor_is_allocated t then apply map q = q
          else exists k, tensors m !! k = Some q
                         /\ tensors m' !! k = Some (apply map q))
    /\ (forall q, q ∉ tensors m -> apply map q = q).
Proof.
  intros Hvalid.
  destruct (clone_tensors_spec (tensors m) h ∅ Hvalid)
    as (ts' & map & new & Hrun & Hlen & Hpos & Hmap & Hout).
  set (h1 := {| tensors_h := tensors_h h ++ new; storages_h := storages_h h;
                data_h := data_h h; ops_h := ops_h h |}) in Hrun.
  destruct (clone_ops_spec map (ops m) h1) as (os' & Hops & Hall).
  eexists {| tensors := ts'; ops := os' |}, _, map.
  split.
  { unfold Model_copy, bind. rewrite Hrun. simpl.
    unfold bind in Hops. rewrite Hops. reflexivity. }
  simpl. split; [by exists new|]. split; [done|]. split; [done|].
  split; [|split; [exact Hall|split]].
  - intros k p t Hk Hp. specialize (Hpos k p t Hk Hp).
    pose proof (lookup_app_l_Some _ new _ _ Hp) as Hp1.
    destruct (Tensor_is_allocated t); [by split|].
    destruct Hpos as (p' & Hp' & Hfresh & Hcopy).
    pose proof (lookup_lt_Some _ _ _ Hp) as Hlt.
    assert (Hne : p' <> p) by lia.
    exists p', (Tensor_copy t).
    split; [done|]. split; [done|]. split; [by apply lookup_ge_None_2|].
    split; [done|]. split; [done|]. do 6 (split; [reflexivity|]).
    split; intros x.
    + by rewrite list_lookup_insert_ne.
    + by rewrite list_lookup_insert_ne.
  - intros q t Hq Ht. unfold apply.
    destruct (Tensor_is_allocated t) eqn:Hal.
    + rewrite Hout by (right; eauto). by rewrite lookup_empty.
    + destruct (Hmap q t Hq Ht Hal) as (k & Hk & Hk'). exists k. split; [done|].
      rewrite Hk'.
      assert (Hsome : is_Some (ts' !! k)).
      { apply lookup_lt_is_Some_2. rewrite Hlen. by apply lookup_lt_Some in Hk. }
      rewrite Hk' in Hsome. by destruct Hsome as [x ->].
  - intros q Hq. unfold apply. rewrite Hout by (by left). by rewrite lookup_empty.
Qed.

End Copy.

(** ** Insertion *)

Lemma insert_after_skip (to_insert after : TensorPtr) (l1 l2 : list TensorPtr) :
  after ∉ l1 ->
  insert_after to_insert after (l1 ++ l2) = l1 ++ insert_after to_insert after l2.
Proof.
  induction l1 as [|x l1 IH]; intros Hnin; simpl; [reflexivity|].
  rewrite bool_decide_eq_false_2.
  - rewrite IH; [reflexivity|]. intros Hin. apply Hnin. by right.
  - intros ->. apply Hnin. by left.
Qed.

Lemma insert_before_skip (to_insert : Op) (before : OpPtr) (l1 l2 : list Op) :
  Forall (fun o => op_addr o <> before /\ consumes o to_insert = false) l1 ->
  insert_before to_insert before (l1 ++ l2)
  = l1 ++ insert_before to_insert before l2.
Proof.
  induction 1 as [|o l1 [Haddr Hcons] _ IH]; simpl; [reflexivity|].
  by rewrite (bool_decide_eq_false_2 _ Haddr), Hcons, IH.
Qed.

(** C2: the new op goes right before the first op that is the anchor or
    consumes one of its outputs, whatever follows that op, and to the end
    of the list when there is no such op. *)
Theorem insert_op_placement (to_insert : Op) (before : OpPtr) (m : Model) :
  (forall l1 C l2,
     ops m = l1 ++ C :: l2 ->
     Forall (fun o => op_addr o <> before /\ consumes o to_insert = false) l1 ->
     op_addr C <> before ->
     consumes C to_insert = true ->
     ops (Model_insert_op to_insert before m) = l1 ++ to_insert :: C :: l2)
  /\ (forall l1 E l2,
        ops m = l1 ++ E :: l2 ->
        Forall (fun o => op_addr o <> before /\ consumes o to_insert = false) l1 ->
        op_addr E = before ->
        ops (Model_insert_op to_insert before m) = l1 ++ to_insert :: E :: l2)
  /\ (Forall (fun o => op_addr o <> before /\ consumes o to_insert = false) (ops m) ->
      ops (Model_insert_op to_insert before m) = ops m ++ [to_insert])
  /\ tensors (Model_insert_op to_insert before m) = tensors m.
Proof.
  unfold Model_insert_op; simpl. repeat split.
  - intros l1 C l2 -> Hl1 Haddr Hcons. rewrite insert_before_skip by exact Hl1.
    simpl. by rewrite (bool_decide_eq_false_2 _ Haddr), Hcons.
  - intros l1 E l2 -> Hl1 Haddr. rewrite insert_before_skip by exact Hl1.
    simpl. by rewrite (bool_decide_eq_true_2 _ Haddr).
  - intros Hall. rewrite <- (app_nil_r (ops m)) at 1.
    by rewrite insert_before_skip.
Qed.

(** C9, as the code has it: the new tensor goes right after the first
    occurrence of the anchor, and to the end of the list when the anchor
    is absent; the ops play no part. Both inserts only add the new
    element between two parts of the old list. With an absent anchor the
    op insert appends too, unless an op of the list consumes an output
    of the new op. *)
Theorem insert_tensor_placement (to_insert after : TensorPtr) (m : Model) :
  (after ∈ tensors m ->
   exists l1 l2,
     tensors m = l1 ++ after :: l2 /\ (after ∉ l1)
     /\ tensors (Model_insert_tensor to_insert after m)
        = l1 ++ after :: to_insert :: l2)
  /\ (after ∉ tensors m ->
      tensors (Model_insert_tensor to_insert after m) = tensors m ++ [to_insert])
  /\ ops (Model_insert_tensor to_insert after m) = ops m
  /\ (forall os : list Op,
        tensors (Model_insert_tensor to_insert after {| tensors := tensors m; ops := os |})
        = tensors (Model_insert_tensor to_insert after m))
  /\ (exists l1 l2,
        tensors m = l1 ++ l2
        /\ tensors (Model_insert_tensor to_insert after m) = l1 ++ to_insert :: l2)
  /\ (forall (new_op : Op) (before : OpPtr),
        (exists l1 l2,
           ops m = l1 ++ l2
           /\ ops (Model_insert_op new_op before m) = l1 ++ new_op :: l2)
        /\ (Forall (fun o => op_addr o <> before /\ consumes o new_op = false) (ops m) ->
            ops (Model_insert_op new_op before m) = ops m ++ [new_op])).
Proof.
  unfold Model_insert_tensor, Model_insert_op; simpl.
  assert (Hfound : after ∈ tensors m ->
            exists l1 l2, tensors m = l1 ++ after :: l2 /\ (after ∉ l1)
              /\ insert_after to_insert after (tensors m)
                 = l1 ++ after :: to_insert :: l2).
  { intros Hin. apply list_elem_of_split_l in Hin as (l1 & l2 & Heq & Hnin).
    exists l1, l2. split; [exact Heq|]. split; [exact Hnin|].
    rewrite Heq, insert_after_skip by exact Hnin. simpl.
    by rewrite bool_decide_eq_true_2. }
  assert (Habsent : after ∉ tensors m ->
            insert_after to_insert after (tensors m) = tensors m ++ [to_insert]).
  { intros Hnin. rewrite <- (app_nil_r (tensors m)) at 1.
    by rewrite insert_after_skip. }
  split; [exact Hfound|]. split; [exact Habsent|]. split; [reflexivity|].
  split; [reflexivity|]. split.
  - destruct (decide (after ∈ tensors m)) as [Hin|Hnin].
    + destruct (Hfound Hin) as (l1 & l2 & Heq & _ & Hres).
      exists (l1 ++ [after]), l2. rewrite <- !app_assoc. simpl. by split.
    + exists (tensors m), []. rewrite app_nil_r. split; [done | by apply Habsent].
  - intros new_op before. split.
    + generalize (ops m). intros l. induction l as [|o l (l1 & l2 & Heq & Hres)]; simpl.
      * by exists [], [].
      * destruct (bool_decide (op_addr o = before)); [by exists [], (o :: l)|].
        destruct (consumes o new_op); [by exists [], (o :: l)|].
        exists (o :: l1), l2. simpl. by rewrite Heq at 1; rewrite Hres.
    + intros Hall. rewrite <- (app_nil_r (ops m)) at 1.
      by rewrite insert_before_skip.
Qed.

(** C9 fails as stated: with an absent anchor the op insert does not
    append when an op of the list consumes an output of the new op. *)
Lemma insert_op_absent_anchor_not_appended :
  let C := {| op_addr := 1; inputs := [7%nat]; outputs := [8%nat] |} in
  let N := {| op_addr := 2; inputs := [6%nat]; outputs := [7%nat] |} in
  let m := {| tensors := [6%nat; 7%nat; 8%nat]; ops := [C] |} in
  Forall (fun o => op_addr o <> 99%nat) (ops m)
  /\ ops (Model_insert_op N 99%nat m) = [N; C]
  /\ ops (Model_insert_op N 99%nat m) <> ops m ++ [N].
Proof.
  simpl. split; [|split].
  - repeat constructor. simpl. lia.
  - reflexivity.
  - discriminate.
Qed.

(** ** Topological order *)

Lemma insert_position_le (to_insert : Op) (before : OpPtr) (l : list Op) :
  (insert_position to_insert before l <= length l)%nat.
Proof.
  induction l as [|o l IH]; simpl; [lia|].
  destruct (bool_decide (op_addr o = before)); [lia|].
  destruct (consumes o to_insert); lia.
Qed.

(** No op before the place of insertion consumes an output of the new
    op. *)
Lemma insert_position_prefix (to_insert : Op) (before : OpPtr) (l : list Op)
    (j : nat) (c : Op) :
  l !! j = Some c -> (j < insert_position to_insert before l)%nat ->
  consumes c to_insert = false.
Proof.
  revert j. induction l as [|o l IH]; intros j Hj Hlt; simpl in *; [lia|].
  destruct (bool_decide (op_addr o = before)); [lia|].
  destruct (consumes o to_insert) eqn:Hcons; [lia|].
  destruct j as [|j]; simpl in Hj.
  - by inversion Hj; subst.
  - apply (IH j Hj). lia.
Qed.

(** Where each op stands after the insertion. *)
Lemma insert_before_lookup (to_insert : Op) (before : OpPtr) (l : list Op) (n : nat) :
  insert_before to_insert before l !! n
  = if decide (n < insert_position to_insert before l)%nat then l !! n
    else if decide (n = insert_position to_insert before l) then Some to_insert
    else l !! (n - 1)%nat.
Proof.
  revert n. induction l as [|o l IH]; intros n; simpl.
  - destruct n as [|n]; simpl; [reflexivity|].
    by rewrite lookup_nil.
  - destruct (bool_decide (op_addr o = before)); [|destruct (consumes o to_insert)].
    + destruct n as [|n]; simpl; [reflexivity|]. by rewrite Nat.sub_0_r.
    + destruct n as [|n]; simpl; [reflexivity|]. by rewrite Nat.sub_0_r.
    + destruct n as [|n]; simpl; [reflexivity|].
      rewrite IH.
      destruct (decide (n < _)%nat), (decide (S n < S _)%nat); try lia; [reflexivity|].
      destruct (decide (n = _)), (decide (S n = S _)); try lia; [reflexivity|].
      rewrite Nat.sub_0_r. destruct n as [|n]; [lia|]. simpl. by rewrite Nat.sub_0_r.
Qed.

(** C3, as the code has it: the insertion checks who consumes the new
    op's outputs, not whose outputs the new op consumes. On a list in
    topological order the result is in topological order exactly when
    the new op consumes no output of its own and none of an op standing
    at or after the place where it is put. *)
Theorem insert_op_topological (to_insert : Op) (before : OpPtr) (m : Model) :
  topological (ops m) ->
  (topological (ops (Model_insert_op to_insert before m))
   <-> consumes to_insert to_insert = false
       /\ forall (j : nat) (p : Op),
            ops m !! j = Some p -> consumes to_insert p = true ->
            (j < insert_position to_insert before (ops m))%nat).
Proof.
  unfold Model_insert_op; simpl. generalize (ops m). clear m. intros l Htopo.
  set (k := insert_position to_insert before l).
  assert (Hk : insert_before to_insert before l !! k = Some to_insert).
  { rewrite insert_before_lookup. fold k.
    destruct (decide (k < k)%nat); [lia|]. by rewrite decide_True. }
  split.
  - intros Hres. split.
    + destruct (consumes to_insert to_insert) eqn:Hself; [|reflexivity].
      specialize (Hres k k _ _ Hk Hk Hself). lia.
    + intros j p Hj Hcons.
      destruct (decide (j < k)%nat) as [|Hge]; [done|].
      assert (Hj' : insert_before to_insert before l !! S j = Some p).
      { rewrite insert_before_lookup. fold k.
        destruct (decide (S j < k)%nat); [lia|].
        destruct (decide (S j = k)); [lia|]. simpl. by rewrite Nat.sub_0_r. }
      specialize (Hres (S j) k _ _ Hj' Hk Hcons). lia.
  - intros [Hself Hprod] i j p c Hi Hj Hcons.
    rewrite insert_before_lookup in Hi, Hj. fold k in Hi, Hj.
    destruct (decide (i < k)%nat) as [Hik|Hik];
      [|destruct (decide (i = k)) as [->|Hik']];
      (destruct (decide (j < k)%nat) as [Hjk|Hjk];
         [|destruct (decide (j = k)) as [->|Hjk']]).
    + apply (Htopo i j p c Hi Hj Hcons).
    + lia.
    + pose proof (Htopo i (j - 1)%nat p c Hi Hj Hcons). lia.
    + inversion Hi; subst.
      by rewrite (insert_position_prefix _ before l j c Hj Hjk) in Hcons.
    + inversion Hi; inversion Hj; subst. congruence.
    + lia.
    + pose proof (Htopo (i - 1)%nat j p c Hi Hj Hcons). lia.
    + inversion Hj; subst. specialize (Hprod (i - 1)%nat p Hi Hcons). fold k in Hprod. lia.
    + pose proof (Htopo (i - 1)%nat (j - 1)%nat p c Hi Hj Hcons). lia.
Qed.

(** C3 fails as stated: an op that reads the output of the anchor is
    put before the anchor all the same. *)
Lemma insert_op_breaks_topological :
  let P := {| op_addr := 1; inputs := [9%nat]; outputs := [10%nat] |} in
  let N := {| op_addr := 2; inputs := [10%nat]; outputs := [11%nat] |} in
  let m := {| tensors := [9%nat; 10%nat; 11%nat]; ops := [P] |} in
  topological (ops m)
  /\ ops (Model_insert_op N 1%nat m) = [N; P]
  /\ ~ topological (ops (Model_insert_op N 1%nat m)).
Proof.
  simpl. split; [|split].
  - intros i j p c Hi Hj Hcons.
    destruct i as [|i]; [|by rewrite lookup_cons, lookup_nil in Hi].
    destruct j as [|j]; [|by rewrite lookup_cons, lookup_nil in Hj].
    simpl in Hi, Hj. inversion Hi; inversion Hj; subst. discriminate.
  - reflexivity.
  - intros Htopo.
    specialize (Htopo 1%nat 0%nat
                  {| op_addr := 1; inputs := [9%nat]; outputs := [10%nat] |}
                  {| op_addr := 2; inputs := [10%nat]; outputs := [11%nat] |}
                  eq_refl eq_refl eq_refl).
    lia.
Qed.

(** * The theorems at work on the example store and model *)

Lemma add_use_second_use_stops_witness :
  (exists s1, TensorStorage.add_use int8 [iv (-2) 7] TensorStorage.make 0%nat
              = Done (s1, 1%nat)
              /\ TensorStorage.is_allocated s1 = true)
  /\ add_uses int8 [[iv (-2) 7]; [iv 0 9]] TensorStorage.make 0%nat
     = Fail AssertionFailure.
Proof.
  destruct (add_use_second_use_stops int8 TensorStorage.make [iv (-2) 7] [iv 0 9] [] 0%nat)
    as (Hfirst & Hsecond & _).
  - reflexivity.
  - discriminate.
  - reflexivity.
  - split; [exact Hfirst | exact Hsecond].
Defined.

Lemma add_use_contract_witness :
  TensorStorage.add_use float32 [iv 0 3]
    {| TensorStorage.buffer_ := unallocated int8 [iv (-2) 7] |} 0%nat
  = Fail AssertionFailure
  /\ exists s' n',
       TensorStorage.add_use int8 [iv 0 3]
         {| TensorStorage.buffer_ := unallocated int8 [iv (-2) 7] |} 0%nat
       = Done (s', n').
Proof.
  split.
  - apply (proj1 (add_use_contract float32 [iv 0 3]
                    {| TensorStorage.buffer_ := unallocated int8 [iv (-2) 7] |} 0%nat)).
    + simpl. discriminate.
    + left. simpl. discriminate.
  - apply (proj2 (add_use_contract int8 [iv 0 3]
                    {| TensorStorage.buffer_ := unallocated int8 [iv (-2) 7] |} 0%nat));
      reflexivity.
Defined.


Lemma storage_of_allocated_tensor_fails_witness :
  Tensor_storage 0%nat ex_heap = Fail AssertionFailure
  /\ exists h', Tensor_storage 1%nat ex_heap = Done (1%nat, h').
Proof.
  split.
  - apply (proj1 (storage_of_allocated_tensor_fails ex_heap 0%nat ex_W eq_refl eq_refl)).
    reflexivity.
  - destruct (proj2 (storage_of_allocated_tensor_fails ex_heap 1%nat ex_X eq_refl eq_refl)
                eq_refl) as (h' & Hrun & _).
    by exists h'.
Defined.

Lemma Tensor_allocate_crops_witness :
  exists h', Tensor_allocate 2%nat ex_heap = Done (tt, h').
Proof.
  destruct (Tensor_allocate_crops ex_heap 2%nat ex_A) as [Hok _].
  - reflexivity.
  - reflexivity.
  - intros p Hp. inversion Hp; subst. by eexists.
  - reflexivity.
  - destruct Hok as (h' & p & s & Hrun & _).
    + unfold contains. simpl.
      repeat constructor; vm_compute; discriminate.
    + by exists h'.
Defined.

(** C6 fails as stated: [X.set_alias_of(S)], for [S] without dimensions
    and [X] with one, succeeds and leaves both bound to a storage with
    one dimension. [S] is not allocated and that storage covers the
    bounds of [S], there being none, yet [S.allocate()] does not crop:
    its loop asks the buffer of [S] for dimension 0, which it has not. *)
Lemma Tensor_allocate_of_aliased_scalar_stops :
  exists (h1 : Heap unit) (s : TensorStorage.t),
    Tensor_set_alias_of 0%nat 2%nat ex_heap2 = Done (tt, h1)
    /\ tensors_h h1 !! 2%nat = Some (set_storage 0 ex_S)
    /\ Tensor_is_allocated (set_storage 0 ex_S) = false
    /\ storages_h h1 !! 0%nat = Some s
    /\ TensorStorage.rank s = 1%nat
    /\ covers (TensorStorage.bounds s) (Tensor_box (set_storage 0 ex_S))
    /\ Tensor_allocate 2%nat h1 = Fail InvalidAccess.
Proof.
  eexists _, _. split; [vm_compute; reflexivity|].
  split; [reflexivity|]. split; [reflexivity|]. split; [reflexivity|].
  split; [reflexivity|]. split; [|reflexivity].
  intros i x Hi. discriminate.
Qed.

Lemma set_alias_of_shares_storage_witness :
  exists h' (p : StoragePtr),
    Tensor_set_alias_of 1%nat 2%nat ex_heap = Done (tt, h')
    /\ Tensor_storage 1%nat h' = Done (p, h')
    /\ Tensor_storage 2%nat h' = Done (p, h').
Proof.
  destruct (set_alias_of_shares_storage ex_heap 1%nat 2%nat ex_X ex_A) as [Hok Hpost].
  - reflexivity.
  - reflexivity.
  - unfold buffer_in_int. simpl. repeat constructor; solve_in_int.
  - intros s Hs. inversion Hs; subst. intros i x Hi.
    destruct i as [|i]; [|discriminate].
    inversion Hi; subst. eexists. split; [reflexivity|].
    split; vm_compute; discriminate.
  - destruct Hok as [h' Hrun].
    + discriminate.
    + eexists. split; [reflexivity|]. right. by repeat split.
    + destruct (Hpost h' Hrun) as (p & s & ta' & tb' & _ & _ & _ & _ & Ha & Hb & _).
      by exists h', p.
Defined.

Lemma Model_copy_shares_allocated_witness :
  exists (m' : Model) (h' : Heap unit),
    Model_copy ex_model ex_heap = Done (m', h')
    /\ tensors m' !! 0%nat = Some 0%nat.
Proof.
  destruct (Model_copy_shares_allocated ex_heap ex_model)
    as (m' & h' & map & Hrun & _ & _ & _ & Hpos & _).
  - repeat constructor; by eexists.
  - exists m', h'. split; [exact Hrun|].
    exact (proj1 (Hpos 0%nat 0%nat ex_W eq_refl eq_refl)).
Defined.

Lemma insert_op_placement_witness :
  ops (Model_insert_op ex_new1 3%nat ex_model) = [ex_op1; ex_new1; ex_op2; ex_op3]
  /\ ops (Model_insert_op ex_new2 3%nat ex_model) = [ex_op1; ex_op2; ex_new2; ex_op3]
  /\ ops (Model_insert_op ex_new2 99%nat ex_model) = [ex_op1; ex_op2; ex_op3; ex_new2].
Proof.
  split; [|split].
  - apply (proj1 (insert_op_placement ex_new1 3%nat ex_model) [ex_op1] ex_op2 [ex_op3]).
    + reflexivity.
    + repeat constructor. discriminate.
    + discriminate.
    + reflexivity.
  - apply (proj1 (proj2 (insert_op_placement ex_new2 3%nat ex_model))
             [ex_op1; ex_op2] ex_op3 []).
    + reflexivity.
    + repeat constructor; discriminate.
    + reflexivity.
  - apply (proj1 (proj2 (proj2 (insert_op_placement ex_new2 99%nat ex_model)))).
    repeat constructor; discriminate.
Defined.

Lemma insert_tensor_placement_witness :
  (exists l1 l2,
     tensors ex_model = l1 ++ 1%nat :: l2
     /\ tensors (Model_insert_tensor 7%nat 1%nat ex_model) = l1 ++ 1%nat :: 7%nat :: l2)
  /\ tensors (Model_insert_tensor 7%nat 99%nat ex_model) = [0%nat; 1%nat; 2%nat; 7%nat]
  /\ ops (Model_insert_op ex_new2 99%nat ex_model) = [ex_op1; ex_op2; ex_op3; ex_new2].
Proof.
  split; [|split].
  - destruct (proj1 (insert_tensor_placement 7%nat 1%nat ex_model))
      as (l1 & l2 & Heq & _ & Hres).
    + apply list_elem_of_In. simpl. lia.
    + by exists l1, l2.
  - apply (proj1 (proj2 (insert_tensor_placement 7%nat 99%nat ex_model))).
    intros Hin. apply list_elem_of_In in Hin. simpl in Hin. lia.
  - apply (proj2 (proj2 (proj2 (proj2 (proj2 (proj2
             (insert_tensor_placement 7%nat 99%nat ex_model))))) ex_new2 99%nat)).
    repeat constructor; discriminate.
Defined.

Lemma ex_model_topological : topological (ops ex_model).
Proof.
  intros i j p c Hi Hj Hcons.
  destruct i as [|[|[|i]]]; simpl in Hi; try discriminate;
    destruct j as [|[|[|j]]]; simpl in Hj; try discriminate;
    inversion Hi; inversion Hj; subst; try lia; discriminate.
Qed.

Lemma insert_op_topological_witness :
  topological (ops (Model_insert_op ex_new2 3%nat ex_model)).
Proof.
  apply (proj2 (insert_op_topological ex_new2 3%nat ex_model ex_model_topological)).
  split; [reflexivity|].
  intros j p Hj Hcons.
  destruct j as [|[|[|j]]]; simpl in Hj; try discriminate;
    inversion Hj; subst; simpl; try lia; discriminate.
Defined.

(** * Further properties of the code *)

(** ** Buffers and storage bounds *)

Lemma wrap_wrap_add (x y : Z) : wrap (wrap x + y) = wrap (x + y).
Proof.
  unfold wrap.
  replace ((x + 2 ^ 31) mod 2 ^ 32 - 2 ^ 31 + y + 2 ^ 31)
    with ((x + 2 ^ 31) mod 2 ^ 32 + y) by lia.
  rewrite Zplus_mod_idemp_l. f_equal. f_equal. lia.
Qed.

Lemma existsb_zero_extent (bounds : Box) :
  existsb (Z.eqb 0) (map Interval.extent bounds) = true
  <-> Exists (fun iv => Interval.extent iv = 0) bounds.
Proof.
  induction bounds as [|iv bs IH]; cbn [map existsb].
  - split; [discriminate | by intros H; inversion H].
  - rewrite Exists_cons, orb_true_iff, IH.
    destruct (Z.eqb_spec 0 (Interval.extent iv)) as [Heq|Hne].
    + split; intros _; by left.
    + split; (intros [H|H]; [|by right]); [discriminate | congruence].
Qed.

(** [make_buffer] keeps the box, for a box whose ends are [int] values:
    the buffer has the given type and one dimension per interval, and
    each dimension gives back the interval's min and max, also when
    [max - min + 1] does not fit in an [int]. The buffer comes with
    memory of its own, a new allocation, unless an extent is 0: then it
    has no data and nothing is allocated. *)
Theorem make_buffer_round_trip (ty : halide_type_t) (bounds : Box) (n : nat) :
  Forall interval_in_int bounds ->
  exists b n',
    make_buffer ty bounds n = Done (b, n')
    /\ Buffer.type b = ty
    /\ Buffer.dimensions b = length bounds
    /\ (forall i iv, bounds !! i = Some iv ->
          exists d, Buffer.dim b !! i = Some d
            /\ Dim.min d = Interval.min iv
            /\ Dim.max d = Interval.max iv
            /\ Dim.extent d = wrap (Interval.max iv - Interval.min iv + 1))
    /\ (Forall (fun iv => Interval.extent iv <> 0) bounds ->
        Buffer.data b = Some n /\ n' = S n)
    /\ (Exists (fun iv => Interval.extent iv = 0) bounds ->
        Buffer.data b = None /\ n' = n).
Proof.
  intros Hb. exists (made ty bounds n).1, (made ty bounds n).2.
  split; [rewrite make_buffer_eq; by destruct (made ty bounds n)|].
  destruct (made_shape ty bounds n) as [Hty Hdim].
  split; [exact Hty|].
  split; [unfold Buffer.dimensions, box_dims in *; by rewrite Hdim, length_fmap|].
  split; [|split].
  - intros i iv Hi. rewrite Hdim. unfold box_dims.
    eexists. rewrite list_lookup_fmap, Hi. simpl.
    split; [reflexivity|].
    destruct (proj1 (Forall_lookup _ _) Hb i iv Hi) as [Hmin Hmax].
    unfold Dim.max, Interval.extent. simpl.
    rewrite Z.add_0_l, (wrap_id _ Hmin).
    split; [done|]. split; [|done]. by apply wrap_max_of_extent.
  - intros Hnz. unfold made.
    destruct (existsb (Z.eqb 0) (map Interval.extent bounds)) eqn:Hz; [|done].
    apply existsb_zero_extent in Hz. apply Exists_exists in Hz as (iv & Hin & Hiv).
    by destruct (proj1 (Forall_forall _ _) Hnz iv Hin).
  - intros Hz. apply existsb_zero_extent in Hz. unfold made. by rewrite Hz.
Qed.

(** What [add_use] does deliver: on a storage that has dimensions and
    no data, such as the one [Tensor::storage] makes from the buffer of a
    tensor without data, every sequence of [add_use] calls with the
    storage's type and rank succeeds, allocates nothing, and leaves in
    every dimension the least of the mins and the greatest of the maxes
    of the storage and of the uses; every reordering of the calls leaves
    the same bounds. *)
Theorem add_uses_union (ty : halide_type_t) (k : nat) (s : TensorStorage.t)
    (uses : list Box) (n : nat) :
  k <> 0%nat ->
  TensorStorage.rank s = k ->
  Buffer.type (TensorStorage.buffer_ s) = ty ->
  TensorStorage.is_allocated s = false ->
  Forall (box_ok k) uses ->
  exists s',
    add_uses ty uses s n = Done (s', n)
    /\ length (TensorStorage.bounds s') = k
    /\ (forall i iv0, TensorStorage.bounds s !! i = Some iv0 ->
          TensorStorage.bounds s' !! i = Some (union_all iv0 (column i uses)))
    /\ (forall uses', uses ≡ₚ uses' ->
          exists s'', add_uses ty uses' s n = Done (s'', n)
            /\ TensorStorage.bounds s'' = TensorStorage.bounds s').
Proof.
  intros Hk Hrank Hty Hal Huses.
  assert (Hdat : Buffer.data (TensorStorage.buffer_ s) = None).
  { unfold TensorStorage.is_allocated, Buffer.has_data in Hal.
    apply bool_decide_eq_false in Hal.
    destruct (Buffer.data (TensorStorage.buffer_ s)); [|reflexivity].
    exfalso. by apply Hal. }
  assert (Hlen : length (TensorStorage.bounds s) = k).
  { unfold TensorStorage.bounds. rewrite length_map. exact Hrank. }
  destruct (add_uses_grow ty k uses s n Hk Hrank Hty Hdat Huses) as (s' & Hrun & Hbnd).
  exists s'. split; [exact Hrun|]. rewrite Hbnd.
  split; [by apply foldl_union_length|].
  split; [intros i iv0 Hi; by apply (foldl_union_lookup k)|].
  intros uses' HP.
  assert (Huses' : Forall (box_ok k) uses') by (by rewrite <- HP).
  destruct (add_uses_grow ty k uses' s n Hk Hrank Hty Hdat Huses') as (s'' & Hrun' & Hbnd').
  exists s''. split; [exact Hrun'|]. rewrite Hbnd'.
  apply list_eq. intros i.
  destruct (TensorStorage.bounds s !! i) as [iv0|] eqn:Hi.
  - rewrite (foldl_union_lookup k uses' _ i iv0 Hlen Huses' Hi).
    rewrite (foldl_union_lookup k uses _ i iv0 Hlen Huses Hi).
    f_equal. apply union_all_perm. constructor. unfold column. by rewrite HP.
  - apply lookup_ge_None_1 in Hi.
    rewrite !lookup_ge_None_2; [reflexivity| |];
      rewrite (foldl_union_length k) by done; lia.
Qed.

Lemma grow_max (d : Dim.t) (iv : Interval.t) :
  in_int (Interval.max iv) ->
  Dim.max (grow d iv) = Z.max (Dim.max d) (Interval.max iv).
Proof.
  intros Hmx. unfold grow, Dim.max at 1; simpl.
  apply wrap_max_of_extent.
  pose proof (Dim_max_in_int d). unfold in_int in *. lia.
Qed.

Lemma grow_idem (d : Dim.t) (iv : Interval.t) :
  in_int (Interval.max iv) -> grow (grow d iv) iv = grow d iv.
Proof.
  intros Hmx. unfold grow at 1. rewrite (grow_max d iv Hmx).
  unfold grow. simpl. f_equal; [lia|]. f_equal. lia.
Qed.

Lemma zip_grow_idem (ds : list Dim.t) (bounds : Box) :
  Forall interval_in_int bounds ->
  zip_with grow (zip_with grow ds bounds) bounds = zip_with grow ds bounds.
Proof.
  intros Hb. revert ds. induction Hb as [|iv bs [_ Hmx] _ IH]; intros [|d ds];
    try reflexivity.
  cbn [zip_with]. by rewrite grow_idem, IH.
Qed.

(** On a storage that has dimensions, registering the same use twice
    is the same as registering it once. *)
Theorem add_use_idempotent (ty : halide_type_t) (bounds : Box)
    (s s1 : TensorStorage.t) (n n1 : nat) :
  TensorStorage.rank s <> 0%nat ->
  Forall interval_in_int bounds ->
  TensorStorage.add_use ty bounds s n = Done (s1, n1) ->
  TensorStorage.add_use ty bounds s1 n1 = Done (s1, n1).
Proof.
  intros H0 Hb Hrun.
  destruct (add_use_inv _ _ _ _ _ _ Hrun) as [(Hz & _)|(_ & Hlen & -> & ->)]; [done|].
  unfold TensorStorage.rank, Buffer.dimensions in *.
  rewrite add_use_grow; cbn [Buffer.dim Buffer.type Buffer.data TensorStorage.buffer_];
    try done.
  - by rewrite zip_grow_idem.
  - unfold TensorStorage.rank, Buffer.dimensions. simpl.
    rewrite length_zip_with. lia.
  - unfold TensorStorage.rank, Buffer.dimensions. simpl.
    rewrite length_zip_with. lia.
Qed.

Lemma grow_contained (d : Dim.t) (iv : Interval.t) :
  in_int (Dim.extent d) ->
  Dim.min d <= Interval.min iv -> Interval.max iv <= Dim.max d ->
  grow d iv = d.
Proof.
  intros He Hmin Hmax. unfold grow.
  rewrite Z.min_l, Z.max_l by lia.
  destruct d as [mn e]. simpl in *. f_equal.
  unfold Dim.max. simpl.
  replace (wrap (mn + e - 1) - mn + 1) with (wrap (mn + e - 1) + (- mn + 1)) by lia.
  rewrite wrap_wrap_add.
  replace (mn + e - 1 + (- mn + 1)) with e by lia. by apply wrap_id.
Qed.

Lemma zip_grow_contained (ds : list Dim.t) (bounds : Box) :
  Forall (fun d => in_int (Dim.extent d)) ds ->
  length ds = length bounds ->
  covers ((fun d => {| Interval.min := Dim.min d; Interval.max := Dim.max d |}) <$> ds)
         bounds ->
  zip_with grow ds bounds = ds.
Proof.
  intros Hext. revert bounds.
  induction Hext as [|d ds' Hd _ IH]; intros [|iv bs] Hlen Hcov;
    simpl in *; try discriminate; [reflexivity|].
  f_equal.
  - destruct (Hcov 0%nat iv eq_refl) as (siv & Hs & Hmin & Hmax).
    inversion Hs; subst. simpl in *. by apply grow_contained.
  - apply IH; [lia|]. intros i x Hi. apply (Hcov (S i) x Hi).
Qed.

(** A use that lies within the bounds the storage already has changes
    nothing. *)
Theorem add_use_contained_noop (ty : halide_type_t) (bounds : Box)
    (s : TensorStorage.t) (n : nat) :
  TensorStorage.rank s <> 0%nat ->
  Buffer.type (TensorStorage.buffer_ s) = ty ->
  TensorStorage.rank s = length bounds ->
  TensorStorage.is_allocated s = false ->
  extents_in_int (TensorStorage.buffer_ s) ->
  covers (TensorStorage.bounds s) bounds ->
  TensorStorage.add_use ty bounds s n = Done (s, n).
Proof.
  intros H0 Hty Hlen Hal Hext Hcov.
  apply has_data_false in Hal.
  rewrite add_use_grow by done.
  rewrite zip_grow_contained; [|exact Hext|exact Hlen|exact Hcov].
  destruct s as [[ty' ds dat]]. simpl in *. by subst.
Qed.

(** A use never shrinks a storage: after it the bounds cover the bounds
    the storage had and the new box, and the storage has the rank and
    type it had and still no data. *)
Theorem add_use_monotone (ty : halide_type_t) (bounds : Box)
    (s s' : TensorStorage.t) (n n' : nat) :
  TensorStorage.rank s <> 0%nat ->
  Forall interval_in_int bounds ->
  TensorStorage.add_use ty bounds s n = Done (s', n') ->
  covers (TensorStorage.bounds s') (TensorStorage.bounds s)
  /\ covers (TensorStorage.bounds s') bounds
  /\ TensorStorage.rank s' = TensorStorage.rank s
  /\ Buffer.type (TensorStorage.buffer_ s') = Buffer.type (TensorStorage.buffer_ s)
  /\ TensorStorage.is_allocated s' = false.
Proof.
  intros H0 Hb Hrun.
  destruct (add_use_covers ty s s' bounds (TensorStorage.bounds s) n n' Hb
              (covers_refl _) Hrun) as [Hnew Hold].
  split; [exact Hold|]. split; [exact Hnew|].
  destruct (decide (Buffer.type (TensorStorage.buffer_ s) = ty)) as [Hty|Hty].
  2:{ rewrite add_use_stops in Hrun; [discriminate|exact H0|by left]. }
  destruct (add_use_inv _ _ _ _ _ _ Hrun) as [(Hz & _)|(_ & Hlen & -> & _)]; [done|].
  unfold TensorStorage.rank, Buffer.dimensions in *. simpl.
  rewrite length_zip_with. split; [lia|]. by split.
Qed.

Lemma grow_comm (d : Dim.t) (i1 i2 : Interval.t) :
  in_int (Interval.max i1) -> in_int (Interval.max i2) ->
  grow (grow d i1) i2 = grow (grow d i2) i1.
Proof.
  intros H1 H2. unfold grow at 1 3. rewrite (grow_max d i1 H1), (grow_max d i2 H2).
  unfold grow. simpl. f_equal; [lia|]. f_equal. lia.
Qed.

Lemma zip_grow_comm (ds : list Dim.t) (b1 b2 : Box) :
  Forall interval_in_int b1 -> Forall interval_in_int b2 ->
  zip_with grow (zip_with grow ds b1) b2 = zip_with grow (zip_with grow ds b2) b1.
Proof.
  intros H1. revert ds b2. induction H1 as [|i1 b1 [_ Hm1] _ IH]; intros ds b2 H2.
  - destruct ds, b2; reflexivity.
  - destruct H2 as [|i2 b2 [_ Hm2] H2]; [by destruct ds|].
    destruct ds as [|d ds]; [reflexivity|].
    cbn [zip_with]. by rewrite grow_comm, IH.
Qed.

(** [add_use] on a storage that has dimensions, in one equation. *)
Lemma add_use_result (ty : halide_type_t) (bounds : Box) (s : TensorStorage.t)
    (n : nat) :
  TensorStorage.rank s <> 0%nat ->
  TensorStorage.add_use ty bounds s n
  = if bool_decide (Buffer.type (TensorStorage.buffer_ s) = ty
                    /\ TensorStorage.rank s = length bounds
                    /\ Buffer.data (TensorStorage.buffer_ s) = None)
    then Done ({| TensorStorage.buffer_ :=
                    {| Buffer.type := ty;
                       Buffer.dim := zip_with grow (Buffer.dim (TensorStorage.buffer_ s)) bounds;
                       Buffer.data := None |} |}, n)
    else Fail AssertionFailure.
Proof.
  intros H0. case_bool_decide as Hc.
  - destruct Hc as (Hty & Hlen & Hd). by apply add_use_grow.
  - apply add_use_stops; [exact H0|].
    destruct (decide (Buffer.type (TensorStorage.buffer_ s) = ty)) as [Hty|Hty];
      [|by left].
    destruct (decide (TensorStorage.rank s = length bounds)) as [Hlen|Hlen];
      [|by right; left].
    right. right. unfold TensorStorage.is_allocated, Buffer.has_data.
    destruct (Buffer.data (TensorStorage.buffer_ s)) as [p|] eqn:Hd; [done|].
    by destruct Hc.
Qed.

(** On a storage that already has dimensions two uses commute, whether
    they succeed or stop at an assertion. *)
Theorem add_use_commutes (ty : halide_type_t) (b1 b2 : Box) (s : TensorStorage.t)
    (n : nat) :
  TensorStorage.rank s <> 0%nat ->
  Forall interval_in_int b1 -> Forall interval_in_int b2 ->
  add_uses ty [b1; b2] s n = add_uses ty [b2; b1] s n.
Proof.
  intros H0 Hb1 Hb2. cbn [add_uses]. unfold alloc_bind, alloc_ret.
  rewrite !(add_use_result ty _ s) by exact H0.
  unfold TensorStorage.rank, Buffer.dimensions in *.
  destruct (decide (Buffer.type (TensorStorage.buffer_ s) = ty)) as [Hty|Hty].
  2:{ rewrite !bool_decide_eq_false_2 by (by intros (? & _)). reflexivity. }
  destruct (Buffer.data (TensorStorage.buffer_ s)) as [p|] eqn:Hd.
  { rewrite !bool_decide_eq_false_2 by (by intros (_ & _ & ?)). reflexivity. }
  destruct (decide (length (Buffer.dim (TensorStorage.buffer_ s)) = length b1)) as [H1|H1];
    destruct (decide (length (Buffer.dim (TensorStorage.buffer_ s)) = length b2)) as [H2|H2].
  - rewrite !bool_decide_eq_true_2 by done. simpl.
    rewrite !add_use_result
      by (unfold TensorStorage.rank, Buffer.dimensions; simpl; rewrite length_zip_with; lia).
    unfold TensorStorage.rank, Buffer.dimensions. simpl.
    rewrite !bool_decide_eq_true_2 by (rewrite length_zip_with; repeat split; lia).
    by rewrite zip_grow_comm.
  - rewrite (bool_decide_eq_true_2 (_ /\ _ = length b1 /\ _)) by done.
    rewrite (bool_decide_eq_false_2 (_ /\ _ = length b2 /\ _)) by (by intros (_ & ? & _)).
    simpl. rewrite add_use_result
      by (unfold TensorStorage.rank, Buffer.dimensions; simpl; rewrite length_zip_with; lia).
    unfold TensorStorage.rank, Buffer.dimensions. simpl.
    rewrite bool_decide_eq_false_2; [reflexivity|].
    rewrite length_zip_with. intros (_ & ? & _). lia.
  - rewrite (bool_decide_eq_false_2 (_ /\ _ = length b1 /\ _)) by (by intros (_ & ? & _)).
    rewrite (bool_decide_eq_true_2 (_ /\ _ = length b2 /\ _)) by done.
    simpl. rewrite add_use_result
      by (unfold TensorStorage.rank, Buffer.dimensions; simpl; rewrite length_zip_with; lia).
    unfold TensorStorage.rank, Buffer.dimensions. simpl.
    rewrite bool_decide_eq_false_2; [reflexivity|].
    rewrite length_zip_with. intros (_ & ? & _). lia.
  - rewrite !bool_decide_eq_false_2 by (by intros (_ & ? & _)). reflexivity.
Qed.

(** On a storage without dimensions they need not: the first use
    decides the rank, so a use without dimensions followed by one with a
    dimension succeeds, and the other order stops at an assertion. *)
Lemma add_use_order_matters_on_rank_0 :
  add_uses int8 [[]; [iv 0 3]] TensorStorage.make 0%nat
  = Done ({| TensorStorage.buffer_ :=
               {| Buffer.type := int8; Buffer.dim := box_dims [iv 0 3];
                  Buffer.data := Some 1%nat |} |}, 2%nat)
  /\ add_uses int8 [[iv 0 3]; []] TensorStorage.make 0%nat = Fail AssertionFailure.
Proof. split; reflexivity. Qed.

(** ** The life of a tensor *)

Section Lifecycle.
Context {QuantizationInfo : Type}.
Implicit Types (h : Heap QuantizationInfo) (t : Tensor QuantizationInfo).

(** [storage()] is stable: once it has answered, it answers the same
    storage again and leaves the store alone. The first answer binds the
    tensor and touches nothing else: no other tensor, no storage that
    existed, no buffer allocation. *)
Theorem Tensor_storage_stable h (this : TensorPtr) (sp : StoragePtr) h1 :
  Tensor_storage this h = Done (sp, h1) ->
  Tensor_storage this h1 = Done (sp, h1)
  /\ (exists t t1,
        tensors_h h !! this = Some t /\ tensors_h h1 !! this = Some t1
        /\ t1 = set_storage sp t
        /\ (storage_ t = None ->
            storages_h h !! sp = None
            /\ storages_h h1 !! sp = Some {| TensorStorage.buffer_ := buffer_ t |}))
  /\ (forall q : TensorPtr, q <> this -> tensors_h h1 !! q = tensors_h h !! q)
  /\ (forall (q : StoragePtr) s, storages_h h !! q = Some s -> storages_h h1 !! q = Some s)
  /\ data_h h1 = data_h h.
Proof.
  intros Hrun.
  assert (Ht : exists t, tensors_h h !! this = Some t).
  { unfold Tensor_storage, bind, load_tensor in Hrun.
    destruct (tensors_h h !! this) as [t|]; [by exists t | discriminate]. }
  destruct Ht as [t Ht].
  pose proof (lookup_lt_Some _ _ _ Ht) as Hlt.
  destruct (Tensor_storage_inv _ _ _ _ _ Ht Hrun) as [[Hp ->]|(Hp & Hd & -> & ->)].
  - split; [exact Hrun|]. split.
    + exists t, t. rewrite (set_storage_id _ _ Hp).
      split; [done|]. split; [done|]. split; [done|]. intros Hn. congruence.
    + by repeat split.
  - split.
    + apply (Tensor_storage_bound _ _ (set_storage (length (storages_h h)) t)).
      * by apply list_lookup_insert_eq.
      * reflexivity.
    + split.
      * exists t, (set_storage (length (storages_h h)) t). simpl.
        rewrite list_lookup_insert_eq by exact Hlt. repeat split; try done.
        -- by apply lookup_ge_None_2.
        -- by apply list_lookup_middle.
      * simpl. split; [|split; [|reflexivity]].
        -- intros q Hq. by rewrite list_lookup_insert_ne.
        -- intros q s Hs. by apply lookup_app_l_Some.
Qed.

Lemma crop_loop_data (own : Buffer.t) (l : list nat) (b b' : Buffer.t) :
  foldM (crop_step own) b l = Done b' ->
  Buffer.data b' = Buffer.data b /\ Buffer.type b' = Buffer.type b.
Proof.
  revert b. induction l as [|i l IH]; intros b Hrun; simpl in Hrun.
  - by inversion Hrun.
  - destruct (crop_step own b i) as [b1|e] eqn:Hstep; [|discriminate]. simpl in Hrun.
    destruct (IH _ Hrun) as [Hd Hty]. rewrite Hd, Hty.
    unfold crop_step in Hstep.
    destruct (Buffer.dim b !! i); [|discriminate].
    destruct (Buffer.dim own !! i); [|discriminate]. simpl in Hstep.
    destruct (bool_decide _); [|discriminate].
    destruct (bool_decide _); [|discriminate].
    simpl in Hstep. by inversion Hstep.
Qed.

(** Whenever [Tensor::allocate] returns, the tensor is allocated, keeps
    its name, its constant flag and its quantization, a second
    [allocate] changes nothing at all, and no other tensor of the store
    was touched. *)
Theorem Tensor_allocate_allocates h (this : TensorPtr) h' :
  Tensor_allocate this h = Done (tt, h') ->
  (exists t t',
     tensors_h h !! this = Some t /\ tensors_h h' !! this = Some t'
     /\ Tensor_is_allocated t' = true
     /\ name_ t' = name_ t
     /\ is_constant_ t' = is_constant_ t
     /\ quantization_ t' = quantization_ t)
  /\ Tensor_allocate this h' = Done (tt, h')
  /\ (forall q : TensorPtr, q <> this -> tensors_h h' !! q = tensors_h h !! q).
Proof.
  intros Hrun.
  assert (Ht : exists t, tensors_h h !! this = Some t).
  { unfold Tensor_allocate, bind, load_tensor in Hrun.
    destruct (tensors_h h !! this) as [t|]; [by exists t | discriminate]. }
  destruct Ht as [t Ht].
  assert (Hallocated : forall h2 t2, tensors_h h2 !! this = Some t2 ->
            Tensor_is_allocated t2 = true -> Tensor_allocate this h2 = Done (tt, h2)).
  { intros h2 t2 Ht2 Hal. unfold Tensor_allocate, bind.
    rewrite (load_tensor_eq _ _ _ Ht2). unfold Tensor_is_allocated in Hal. by rewrite Hal. }
  destruct (Buffer.has_data (buffer_ t)) eqn:Hd.
  { rewrite (Hallocated h t Ht Hd) in Hrun. inversion Hrun; subst.
    split; [by exists t, t|]. split; [by apply (Hallocated h' t)|done]. }
  rewrite (Tensor_allocate_unfold _ _ _ Ht Hd) in Hrun.
  destruct (Tensor_storage this h) as [[p h1]|e] eqn:Hst; [|discriminate].
  destruct (Tensor_storage_post _ _ _ _ _ _ _ Ht Ht Hst)
    as (_ & t1 & _ & Ht1 & _ & Hb1 & Hp1 & _).
  assert (Hframe1 : forall q : TensorPtr, q <> this -> tensors_h h1 !! q = tensors_h h !! q).
  { destruct (Tensor_storage_inv _ _ _ _ _ Ht Hst) as [[_ ->]|(_ & _ & _ & ->)]; [done|].
    intros q Hq. simpl. by rewrite list_lookup_insert_ne. }
  assert (Hfields1 : name_ t1 = name_ t /\ is_constant_ t1 = is_constant_ t
                     /\ quantization_ t1 = quantization_ t).
  { destruct (Tensor_storage_inv _ _ _ _ _ Ht Hst) as [[_ ->]|(_ & _ & _ & ->)].
    - rewrite Ht in Ht1. by inversion Ht1.
    - simpl in Ht1. rewrite list_lookup_insert_eq in Ht1 by (by apply lookup_lt_Some in Ht).
      by inversion Ht1. }
  unfold bind at 1 in Hrun.
  destruct (storages_h h1 !! p) as [s|] eqn:Hs.
  2:{ unfold TensorStorage_allocate, bind, load_storage in Hrun. by rewrite Hs in Hrun. }
  rewrite (TensorStorage_allocate_eq _ _ _ Hs) in Hrun.
  set (h2 := if Buffer.has_data (TensorStorage.buffer_ s) then h1 else _) in Hrun.
  assert (Hh2 : tensors_h h2 = tensors_h h1
                /\ exists s2, storages_h h2 !! p = Some s2
                              /\ Buffer.has_data (TensorStorage.buffer_ s2) = true).
  { unfold h2. destruct (Buffer.has_data (TensorStorage.buffer_ s)) eqn:Hds.
    - split; [done|]. by exists s.
    - split; [done|]. eexists. simpl. split.
      + apply list_lookup_insert_eq. by apply lookup_lt_Some in Hs.
      + reflexivity. }
  destruct Hh2 as (Hten2 & s2 & Hs2 & Hd2). clearbody h2.
  assert (Ht2 : tensors_h h2 !! this = Some t1) by (by rewrite Hten2).
  unfold bind at 1 in Hrun. rewrite (Tensor_storage_bound _ _ _ _ Ht2 Hp1) in Hrun.
  unfold bind at 1 in Hrun. rewrite (load_storage_eq _ _ _ Hs2) in Hrun.
  unfold bind at 1 in Hrun. rewrite (load_tensor_eq _ _ _ Ht2) in Hrun.
  unfold bind, lift in Hrun.
  destruct (foldM _ _ _) as [buffer'|e] eqn:Hloop; [|discriminate].
  destruct (crop_loop_data _ _ _ _ Hloop) as [Hdata _].
  unfold store_tensor in Hrun. inversion Hrun; subst h'. clear Hrun. simpl.
  pose proof (lookup_lt_Some _ _ _ Ht2) as Hlt2.
  assert (Hal' : Tensor_is_allocated (set_buffer buffer' t1) = true).
  { unfold Tensor_is_allocated, Buffer.has_data in *. simpl. by rewrite Hdata. }
  destruct Hfields1 as (Hn & Hc & Hq).
  split; [|split].
  - exists t, (set_buffer buffer' t1).
    rewrite list_lookup_insert_eq by exact Hlt2. by repeat split.
  - apply (Hallocated _ (set_buffer buffer' t1)); [|exact Hal'].
    simpl. by apply list_lookup_insert_eq.
  - intros q Hq'. rewrite list_lookup_insert_ne by done. rewrite Hten2. by apply Hframe1.
Qed.

(** [Tensor::allocate] on a tensor without data that is bound to a
    storage of its rank whose dimensions contain its own. *)
Lemma Tensor_allocate_bound h (this : TensorPtr) t (p : StoragePtr)
    (s : TensorStorage.t) :
  tensors_h h !! this = Some t ->
  Buffer.has_data (buffer_ t) = false ->
  storage_ t = Some p ->
  storages_h h !! p = Some s ->
  TensorStorage.rank s = Buffer.dimensions (buffer_ t) ->
  contains (Buffer.dim (TensorStorage.buffer_ s)) (Buffer.dim (buffer_ t)) ->
  Tensor_allocate this h
  = Done (tt,
      if Buffer.has_data (TensorStorage.buffer_ s) then
        {| tensors_h :=
             <[this := set_buffer
                 {| Buffer.type := Buffer.type (TensorStorage.buffer_ s);
                    Buffer.dim := Buffer.dim (buffer_ t);
                    Buffer.data := Buffer.data (TensorStorage.buffer_ s) |} t]>
               (tensors_h h);
           storages_h := storages_h h; data_h := data_h h; ops_h := ops_h h |}
      else
        {| tensors_h :=
             <[this := set_buffer
                 {| Buffer.type := Buffer.type (TensorStorage.buffer_ s);
                    Buffer.dim := Buffer.dim (buffer_ t);
                    Buffer.data := Some (data_h h) |} t]>
               (tensors_h h);
           storages_h :=
             <[p := {| TensorStorage.buffer_ :=
                         Buffer.make_with_shape_of (data_h h) (TensorStorage.buffer_ s) |}]>
               (storages_h h);
           data_h := S (data_h h); ops_h := ops_h h |}).
Proof.
  intros Ht Hd Hp Hs Hrank Hc.
  rewrite (Tensor_allocate_unfold _ _ _ Ht Hd), (Tensor_storage_bound _ _ _ _ Ht Hp).
  unfold bind at 1. rewrite (TensorStorage_allocate_eq _ _ _ Hs).
  destruct (Buffer.has_data (TensorStorage.buffer_ s)) eqn:Hds.
  - unfold bind. rewrite (Tensor_storage_bound _ _ _ _ Ht Hp).
    rewrite (load_storage_eq _ _ _ Hs), (load_tensor_eq _ _ _ Ht).
    unfold lift. rewrite crop_loop by exact Hrank.
    by rewrite decide_True by exact Hc.
  - set (s2 := {| TensorStorage.buffer_ :=
                    Buffer.make_with_shape_of (data_h h) (TensorStorage.buffer_ s) |}).
    set (h2 := {| tensors_h := tensors_h h; storages_h := <[p := s2]> (storages_h h);
                  data_h := S (data_h h); ops_h := ops_h h |}).
    assert (Hs2 : storages_h h2 !! p = Some s2).
    { simpl. apply list_lookup_insert_eq. by apply lookup_lt_Some in Hs. }
    unfold bind. rewrite (Tensor_storage_bound h2 _ _ _ Ht Hp).
    rewrite (load_storage_eq _ _ _ Hs2), (load_tensor_eq h2 _ _ Ht).
    unfold lift. rewrite crop_loop by exact Hrank.
    by rewrite decide_True by exact Hc.
Qed.

(** The storage dimensions [add_use] leaves contain both the ones it
    had and the ones of the buffer whose box was added. *)
Lemma contains_grow (ds das : list Dim.t) :
  length ds = length das ->
  contains (zip_with grow ds
              ((fun d => {| Interval.min := Dim.min d; Interval.max := Dim.max d |}) <$> das))
           ds
  /\ contains (zip_with grow ds
                 ((fun d => {| Interval.min := Dim.min d; Interval.max := Dim.max d |}) <$> das))
              das.
Proof.
  revert das. induction ds as [|d ds IH]; intros [|da das] Hlen; simpl in *;
    try discriminate.
  - split; constructor.
  - destruct (IH das) as [IH1 IH2]; [lia|].
    pose proof (grow_max d {| Interval.min := Dim.min da; Interval.max := Dim.max da |}
                  (Dim_max_in_int da)) as Hmax. simpl in Hmax.
    split; (constructor; [|done]); rewrite Hmax; unfold grow; simpl; lia.
Qed.

(** [A.set_alias_of(B)] for [B] without dimensions, without data and
    not yet bound to a storage: the storage made for [B] counts as
    unused, and gets the buffer [make_buffer] builds for [A]. *)
Lemma set_alias_of_scalar h (a b : TensorPtr) ta tb :
  a <> b ->
  tensors_h h !! a = Some ta ->
  tensors_h h !! b = Some tb ->
  Tensor_is_allocated tb = false ->
  storage_ tb = None ->
  Buffer.dimensions (buffer_ tb) = 0%nat ->
  Tensor_set_alias_of a b h
  = Done (tt,
      {| tensors_h :=
           <[a := set_storage (length (storages_h h)) ta]>
             (<[b := set_storage (length (storages_h h)) tb]> (tensors_h h));
         storages_h :=
           <[length (storages_h h) :=
               {| TensorStorage.buffer_ :=
                    (made (Tensor_type ta) (Tensor_box ta) (data_h h)).1 |}]>
             (storages_h h ++ [{| TensorStorage.buffer_ := buffer_ tb |}]);
         data_h := (made (Tensor_type ta) (Tensor_box ta) (data_h h)).2;
         ops_h := ops_h h |}).
Proof.
  intros Hne Ha Hb Hdb Hpb H0. unfold Tensor_is_allocated in Hdb.
  rewrite set_alias_of_unfold, (Tensor_storage_fresh _ _ _ Hb Hpb Hdb). simpl.
  rewrite list_lookup_insert_ne by done. rewrite Ha.
  erewrite TensorStorage_add_use_eq; [reflexivity| |].
  - simpl. by apply list_lookup_middle.
  - by rewrite add_use_first.
Qed.

(** [A.set_alias_of(B)] for two distinct tensors without data of one
    type and rank, with dimensions, [B] not yet bound to a storage. *)
Lemma set_alias_of_fresh h (a b : TensorPtr) ta tb :
  a <> b ->
  tensors_h h !! a = Some ta ->
  tensors_h h !! b = Some tb ->
  Tensor_is_allocated tb = false ->
  storage_ tb = None ->
  Tensor_type ta = Tensor_type tb ->
  Buffer.dimensions (buffer_ ta) = Buffer.dimensions (buffer_ tb) ->
  Buffer.dimensions (buffer_ tb) <> 0%nat ->
  Tensor_set_alias_of a b h
  = Done (tt,
      {| tensors_h :=
           <[a := set_storage (length (storages_h h)) ta]>
             (<[b := set_storage (length (storages_h h)) tb]> (tensors_h h));
         storages_h :=
           <[length (storages_h h) :=
               {| TensorStorage.buffer_ :=
                    {| Buffer.type := Tensor_type ta;
                       Buffer.dim := zip_with grow (Buffer.dim (buffer_ tb)) (Tensor_box ta);
                       Buffer.data := None |} |}]>
             (storages_h h ++ [{| TensorStorage.buffer_ := buffer_ tb |}]);
         data_h := data_h h; ops_h := ops_h h |}).
Proof.
  intros Hne Ha Hb Hdb Hpb Hty Hrank H0. unfold Tensor_is_allocated in Hdb.
  rewrite set_alias_of_unfold, (Tensor_storage_fresh _ _ _ Hb Hpb Hdb). simpl.
  rewrite list_lookup_insert_ne by done. rewrite Ha.
  erewrite TensorStorage_add_use_eq; [reflexivity| |].
  - simpl. by apply list_lookup_middle.
  - rewrite add_use_grow; try done.
    + unfold TensorStorage.rank, Tensor_box. simpl. rewrite length_fmap.
      unfold Buffer.dimensions in Hrank. by rewrite Hrank.
    + by apply has_data_false.
Qed.

(** Aliasing, end to end: after [A.set_alias_of(B)], [A.allocate()] and
    [B.allocate()], for two distinct tensors without data of one type
    and rank, both tensors view one and the same new allocation, the
    only one made, and each keeps exactly its own dimensions. *)
Theorem aliased_tensors_share_allocation h (a b : TensorPtr) ta tb :
  a <> b ->
  tensors_h h !! a = Some ta ->
  tensors_h h !! b = Some tb ->
  Tensor_is_allocated ta = false ->
  Tensor_is_allocated tb = false ->
  storage_ tb = None ->
  Tensor_type ta = Tensor_type tb ->
  Buffer.dimensions (buffer_ ta) = Buffer.dimensions (buffer_ tb) ->
  exists h' ta' tb',
    bind (Tensor_set_alias_of a b)
      (fun _ => bind (Tensor_allocate a) (fun _ => Tensor_allocate b)) h
    = Done (tt, h')
    /\ tensors_h h' !! a = Some ta' /\ tensors_h h' !! b = Some tb'
    /\ Buffer.data (buffer_ ta') = Some (data_h h)
    /\ Buffer.data (buffer_ tb') = Some (data_h h)
    /\ Buffer.dim (buffer_ ta') = Buffer.dim (buffer_ ta)
    /\ Buffer.dim (buffer_ tb') = Buffer.dim (buffer_ tb)
    /\ storage_ ta' = storage_ tb'
    /\ data_h h' = S (data_h h).
Proof.
  intros Hne Ha Hb Hda Hdb Hpb Hty Hrank.
  pose proof (lookup_lt_Some _ _ _ Ha) as Hlta.
  pose proof (lookup_lt_Some _ _ _ Hb) as Hltb.
  unfold Tensor_is_allocated in Hda.
  assert (Hlen : length (Buffer.dim (buffer_ tb)) = length (Buffer.dim (buffer_ ta)))
    by (by unfold Buffer.dimensions in Hrank).
  destruct (decide (Buffer.dimensions (buffer_ tb) = 0%nat)) as [H0|H0].
  { (* without dimensions: add_use hands the storage an allocated buffer,
       and both tensors take its memory *)
    assert (Hdimb : Buffer.dim (buffer_ tb) = []).
    { unfold Buffer.dimensions in H0. by destruct (Buffer.dim (buffer_ tb)). }
    assert (Hdima : Buffer.dim (buffer_ ta) = []).
    { rewrite Hdimb in Hlen. by destruct (Buffer.dim (buffer_ ta)). }
    unfold bind at 1. rewrite (set_alias_of_scalar _ _ _ _ _ Hne Ha Hb Hdb Hpb H0).
    assert (Hbox : Tensor_box ta = []) by (unfold Tensor_box; by rewrite Hdima).
    rewrite Hbox. cbn [made map existsb fst snd box_dims fmap list_fmap].
    set (p := length (storages_h h)).
    set (s1 := {| TensorStorage.buffer_ :=
                    {| Buffer.type := Tensor_type ta; Buffer.dim := [];
                       Buffer.data := Some (data_h h) |} |}).
    set (h1 := {| tensors_h := <[a := set_storage p ta]>
                                 (<[b := set_storage p tb]> (tensors_h h));
                  storages_h := <[p := s1]>
                                  (storages_h h ++ [{| TensorStorage.buffer_ := buffer_ tb |}]);
                  data_h := S (data_h h); ops_h := ops_h h |}).
    assert (Ha1 : tensors_h h1 !! a = Some (set_storage p ta)).
    { simpl. apply list_lookup_insert_eq. by rewrite length_insert. }
    assert (Hs1 : storages_h h1 !! p = Some s1).
    { simpl. apply list_lookup_insert_eq. rewrite length_app. simpl. unfold p. lia. }
    assert (Hca : contains (Buffer.dim (TensorStorage.buffer_ s1))
                    (Buffer.dim (buffer_ (set_storage p ta)))).
    { simpl. rewrite Hdima. constructor. }
    assert (Hcb : contains (Buffer.dim (TensorStorage.buffer_ s1))
                    (Buffer.dim (buffer_ (set_storage p tb)))).
    { simpl. rewrite Hdimb. constructor. }
    assert (Hra : TensorStorage.rank s1 = Buffer.dimensions (buffer_ (set_storage p ta))).
    { unfold TensorStorage.rank, Buffer.dimensions. simpl. by rewrite Hdima. }
    assert (Hrb : TensorStorage.rank s1 = Buffer.dimensions (buffer_ (set_storage p tb))).
    { unfold TensorStorage.rank, Buffer.dimensions. simpl. by rewrite Hdimb. }
    unfold bind at 1.
    rewrite (Tensor_allocate_bound h1 a (set_storage p ta) p s1 Ha1 Hda eq_refl Hs1 Hra Hca).
    cbn [s1 TensorStorage.buffer_ Buffer.data Buffer.type].
    change (Buffer.has_data _) with true. cbv iota.
    set (ta' := set_buffer {| Buffer.type := Tensor_type ta;
                              Buffer.dim := Buffer.dim (buffer_ (set_storage p ta));
                              Buffer.data := Some (data_h h) |} (set_storage p ta)).
    set (h2 := {| tensors_h := <[a := ta']> (tensors_h h1);
                  storages_h := storages_h h1; data_h := data_h h1; ops_h := ops_h h1 |}).
    assert (Hb2 : tensors_h h2 !! b = Some (set_storage p tb)).
    { simpl. rewrite !list_lookup_insert_ne by done. by apply list_lookup_insert_eq. }
    rewrite (Tensor_allocate_bound h2 b (set_storage p tb) p s1 Hb2 Hdb eq_refl Hs1 Hrb Hcb).
    cbn [s1 TensorStorage.buffer_ Buffer.data Buffer.type].
    change (Buffer.has_data _) with true. cbv iota.
    eexists _, ta', _. split; [reflexivity|]. simpl.
    rewrite list_lookup_insert_ne by done.
    rewrite list_lookup_insert_eq by (by rewrite !length_insert).
    rewrite list_lookup_insert_eq by (by rewrite !length_insert).
    by repeat split. }
  destruct (contains_grow _ _ Hlen) as [Hcb Hca]. fold (Tensor_box ta) in Hcb, Hca.
  unfold bind at 1. rewrite (set_alias_of_fresh _ _ _ _ _ Hne Ha Hb Hdb Hpb Hty Hrank H0).
  set (p := length (storages_h h)).
  set (s1 := {| TensorStorage.buffer_ :=
                  {| Buffer.type := Tensor_type ta;
                     Buffer.dim := zip_with grow (Buffer.dim (buffer_ tb)) (Tensor_box ta);
                     Buffer.data := None |} |}).
  set (h1 := {| tensors_h := <[a := set_storage p ta]> (<[b := set_storage p tb]> (tensors_h h));
                storages_h := <[p := s1]> (storages_h h ++ [{| TensorStorage.buffer_ := buffer_ tb |}]);
                data_h := data_h h; ops_h := ops_h h |}).
  assert (Hrank1 : TensorStorage.rank s1 = Buffer.dimensions (buffer_ ta)).
  { unfold s1, TensorStorage.rank, Buffer.dimensions, Tensor_box.
    cbn [TensorStorage.buffer_ Buffer.dim].
    rewrite length_zip_with, length_map. lia. }
  assert (Ha1 : tensors_h h1 !! a = Some (set_storage p ta)).
  { simpl. apply list_lookup_insert_eq. by rewrite length_insert. }
  assert (Hs1 : storages_h h1 !! p = Some s1).
  { simpl. apply list_lookup_insert_eq. rewrite length_app. simpl. unfold p. lia. }
  set (s2 := {| TensorStorage.buffer_ := Buffer.make_with_shape_of (data_h h1)
                                            (TensorStorage.buffer_ s1) |}).
  set (ta' := set_buffer
                {| Buffer.type := Buffer.type (TensorStorage.buffer_ s1);
                   Buffer.dim := Buffer.dim (buffer_ (set_storage p ta));
                   Buffer.data := Some (data_h h1) |} (set_storage p ta)).
  set (h2 := {| tensors_h := <[a := ta']> (tensors_h h1);
                storages_h := <[p := s2]> (storages_h h1);
                data_h := S (data_h h1); ops_h := ops_h h1 |}).
  assert (Hrun1 : Tensor_allocate a h1 = Done (tt, h2)).
  { by rewrite (Tensor_allocate_bound h1 a (set_storage p ta) p s1
                  Ha1 Hda eq_refl Hs1 Hrank1 Hca). }
  unfold bind at 1. rewrite Hrun1.
  assert (Hb2 : tensors_h h2 !! b = Some (set_storage p tb)).
  { simpl. rewrite !list_lookup_insert_ne by done. by apply list_lookup_insert_eq. }
  assert (Hs2 : storages_h h2 !! p = Some s2).
  { simpl. apply list_lookup_insert_eq. rewrite length_insert, length_app. simpl.
    unfold p. lia. }
  assert (Hrank2 : TensorStorage.rank s2 = Buffer.dimensions (buffer_ (set_storage p tb))).
  { simpl. unfold TensorStorage.rank, Buffer.dimensions in *. simpl in *. lia. }
  rewrite (Tensor_allocate_bound h2 b (set_storage p tb) p s2 Hb2 Hdb eq_refl Hs2 Hrank2 Hcb).
  simpl.
  eexists _, ta', _. split; [reflexivity|]. simpl.
  rewrite list_lookup_insert_ne by done.
  rewrite list_lookup_insert_eq by (by rewrite !length_insert).
  rewrite list_lookup_insert_eq by (by rewrite !length_insert).
  by repeat split.
Qed.

(** [Tensor::allocate] on a tensor without data and without storage:
    it makes a storage of its own and one allocation. *)
Lemma Tensor_allocate_fresh h (this : TensorPtr) t :
  tensors_h h !! this = Some t ->
  Buffer.has_data (buffer_ t) = false ->
  storage_ t = None ->
  Tensor_allocate this h
  = Done (tt,
      {| tensors_h :=
           <[this := set_buffer
               {| Buffer.type := Buffer.type (buffer_ t);
                  Buffer.dim := Buffer.dim (buffer_ t);
                  Buffer.data := Some (data_h h) |}
               (set_storage (length (storages_h h)) t)]> (tensors_h h);
         storages_h :=
           storages_h h
           ++ [{| TensorStorage.buffer_ :=
                    Buffer.make_with_shape_of (data_h h) (buffer_ t) |}];
         data_h := S (data_h h); ops_h := ops_h h |}).
Proof.
  intros Ht Hd Hp.
  pose proof (lookup_lt_Some _ _ _ Ht) as Hlt.
  set (p := length (storages_h h)).
  set (h1 := {| tensors_h := <[this := set_storage p t]> (tensors_h h);
                storages_h := storages_h h ++ [{| TensorStorage.buffer_ := buffer_ t |}];
                data_h := data_h h; ops_h := ops_h h |}).
  assert (Ht1 : tensors_h h1 !! this = Some (set_storage p t))
    by (by apply list_lookup_insert_eq).
  assert (Hs1 : storages_h h1 !! p = Some {| TensorStorage.buffer_ := buffer_ t |})
    by (by apply list_lookup_middle).
  assert (Heq : Tensor_allocate this h = Tensor_allocate this h1).
  { rewrite (Tensor_allocate_unfold _ _ _ Ht Hd), (Tensor_storage_fresh _ _ _ Ht Hp Hd).
    fold p. fold h1.
    by rewrite (Tensor_allocate_unfold h1 _ _ Ht1 Hd),
               (Tensor_storage_bound h1 _ _ _ Ht1 eq_refl). }
  rewrite Heq.
  rewrite (Tensor_allocate_bound h1 this (set_storage p t) p _ Ht1 Hd eq_refl Hs1 eq_refl
             (contains_refl _)).
  cbn [TensorStorage.buffer_]. rewrite Hd. simpl.
  rewrite list_insert_insert_eq.
  do 2 f_equal. f_equal.
  replace p with (length (storages_h h) + 0)%nat by (unfold p; lia).
  by rewrite insert_app_r.
Qed.

(** Without aliasing there is no sharing: two distinct tensors without
    data and without storage, allocated one after the other, get two
    storages and two allocations, each of exactly the tensor's own
    type and dimensions. *)
Theorem separate_tensors_separate_allocations h (a b : TensorPtr) ta tb :
  a <> b ->
  tensors_h h !! a = Some ta ->
  tensors_h h !! b = Some tb ->
  Tensor_is_allocated ta = false ->
  Tensor_is_allocated tb = false ->
  storage_ ta = None ->
  storage_ tb = None ->
  exists h' ta' tb' (pa pb : StoragePtr),
    bind (Tensor_allocate a) (fun _ => Tensor_allocate b) h = Done (tt, h')
    /\ tensors_h h' !! a = Some ta' /\ tensors_h h' !! b = Some tb'
    /\ Buffer.data (buffer_ ta') = Some (data_h h)
    /\ Buffer.data (buffer_ tb') = Some (S (data_h h))
    /\ Buffer.dim (buffer_ ta') = Buffer.dim (buffer_ ta)
    /\ Buffer.dim (buffer_ tb') = Buffer.dim (buffer_ tb)
    /\ storage_ ta' = Some pa /\ storage_ tb' = Some pb /\ pa <> pb
    /\ data_h h' = S (S (data_h h)).
Proof.
  intros Hne Ha Hb Hda Hdb Hpa Hpb. unfold Tensor_is_allocated in *.
  pose proof (lookup_lt_Some _ _ _ Ha) as Hlta.
  pose proof (lookup_lt_Some _ _ _ Hb) as Hltb.
  unfold bind. rewrite (Tensor_allocate_fresh _ _ _ Ha Hda Hpa).
  erewrite (Tensor_allocate_fresh _ b tb); [|simpl; by rewrite list_lookup_insert_ne|done|done].
  eexists _, _, _, (length (storages_h h)), (S (length (storages_h h))).
  split; [reflexivity|]. simpl.
  rewrite list_lookup_insert_ne by done.
  rewrite list_lookup_insert_eq by exact Hlta.
  rewrite list_lookup_insert_eq by (by rewrite length_insert).
  rewrite length_app. simpl.
  replace (length (storages_h h) + 1)%nat with (S (length (storages_h h))) by lia.
  by repeat split.
Qed.

(** A tensor without dimensions is a trap for aliasing: its storage
    counts as unused, so [A.set_alias_of(B)] succeeds for [A] of any type
    and any rank and gives the storage the shape of [A]; but then
    [B.allocate()] cannot complete, for its loop asks [B]'s buffer for a
    dimension it does not have. *)
Theorem alias_of_scalar_breaks_allocate h (a b : TensorPtr) ta tb :
  a <> b ->
  tensors_h h !! a = Some ta ->
  tensors_h h !! b = Some tb ->
  Tensor_is_allocated tb = false ->
  storage_ tb = None ->
  Buffer.dimensions (buffer_ tb) = 0%nat ->
  Buffer.dimensions (buffer_ ta) <> 0%nat ->
  exists h1 (p : StoragePtr),
    Tensor_set_alias_of a b h = Done (tt, h1)
    /\ storages_h h1 !! p
       = Some {| TensorStorage.buffer_ :=
                   (made (Tensor_type ta) (Tensor_box ta) (data_h h)).1 |}
    /\ Tensor_storage a h1 = Done (p, h1)
    /\ Tensor_storage b h1 = Done (p, h1)
    /\ Tensor_allocate b h1 = Fail InvalidAccess.
Proof.
  intros Hne Ha Hb Hdb Hpb Hrb Hra. unfold Tensor_is_allocated in Hdb.
  pose proof (lookup_lt_Some _ _ _ Ha) as Hlta.
  pose proof (lookup_lt_Some _ _ _ Hb) as Hltb.
  set (p := length (storages_h h)).
  set (s1 := {| TensorStorage.buffer_ :=
                  (made (Tensor_type ta) (Tensor_box ta) (data_h h)).1 |}).
  set (h1 := {| tensors_h := <[a := set_storage p ta]> (<[b := set_storage p tb]> (tensors_h h));
                storages_h := <[p := s1]> (storages_h h ++ [{| TensorStorage.buffer_ := buffer_ tb |}]);
                data_h := (made (Tensor_type ta) (Tensor_box ta) (data_h h)).2;
                ops_h := ops_h h |}).
  assert (Ha1 : tensors_h h1 !! a = Some (set_storage p ta)).
  { simpl. apply list_lookup_insert_eq. by rewrite length_insert. }
  assert (Hb1 : tensors_h h1 !! b = Some (set_storage p tb)).
  { simpl. rewrite list_lookup_insert_ne by done. by apply list_lookup_insert_eq. }
  assert (Hs1 : storages_h h1 !! p = Some s1).
  { simpl. apply list_lookup_insert_eq. rewrite length_app. simpl. unfold p. lia. }
  exists h1, p. split; [|split; [exact Hs1|split; [|split]]].
  - by rewrite (set_alias_of_scalar _ _ _ _ _ Hne Ha Hb Hdb Hpb Hrb).
  - by apply (Tensor_storage_bound _ _ (set_storage p ta)).
  - by apply (Tensor_storage_bound _ _ (set_storage p tb)).
  - rewrite (Tensor_allocate_unfold _ _ _ Hb1 Hdb),
            (Tensor_storage_bound _ _ _ _ Hb1 eq_refl).
    unfold bind at 1. rewrite (TensorStorage_allocate_eq _ _ _ Hs1).
    assert (Hloop : forall (dat : option DataPtr),
              foldM (crop_step (buffer_ (set_storage p tb)))
                {| Buffer.type := Buffer.type (TensorStorage.buffer_ s1);
                   Buffer.dim := Buffer.dim (TensorStorage.buffer_ s1);
                   Buffer.data := dat |}
                (seq 0 (length (Buffer.dim (TensorStorage.buffer_ s1))))
              = Fail InvalidAccess).
    { intros dat. unfold s1. cbn [TensorStorage.buffer_].
      rewrite (proj2 (made_shape _ _ _)).
      unfold Buffer.dimensions, Tensor_box, box_dims in *. simpl.
      destruct (Buffer.dim (buffer_ ta)) as [|d ds]; [done|].
      destruct (Buffer.dim (buffer_ tb)) as [|? ?] eqn:Hdimb; [|discriminate].
      simpl. unfold crop_step. simpl. by rewrite Hdimb. }
    destruct (Buffer.has_data (TensorStorage.buffer_ s1)) eqn:Hd1.
    + unfold bind. rewrite (Tensor_storage_bound h1 _ _ _ Hb1 eq_refl).
      rewrite (load_storage_eq _ _ _ Hs1), (load_tensor_eq h1 _ _ Hb1).
      unfold lift, Buffer.dimensions.
      specialize (Hloop (Buffer.data (TensorStorage.buffer_ s1))).
      assert (Heta : forall b0 : Buffer.t,
                {| Buffer.type := Buffer.type b0; Buffer.dim := Buffer.dim b0;
                   Buffer.data := Buffer.data b0 |} = b0) by (by intros []).
      rewrite Heta in Hloop. by rewrite Hloop.
    + set (s2 := {| TensorStorage.buffer_ :=
                      Buffer.make_with_shape_of (data_h h1) (TensorStorage.buffer_ s1) |}).
      set (h2 := {| tensors_h := tensors_h h1; storages_h := <[p := s2]> (storages_h h1);
                    data_h := S (data_h h1); ops_h := ops_h h1 |}).
      assert (Hs2 : storages_h h2 !! p = Some s2).
      { simpl. apply list_lookup_insert_eq. rewrite length_insert, length_app. simpl.
        unfold p. lia. }
      unfold bind. rewrite (Tensor_storage_bound h2 _ _ _ Hb1 eq_refl).
      rewrite (load_storage_eq _ _ _ Hs2), (load_tensor_eq h2 _ _ Hb1).
      unfold lift, Buffer.dimensions.
      specialize (Hloop (Some (data_h h1))).
      unfold s2, Buffer.make_with_shape_of. cbn [TensorStorage.buffer_ Buffer.dim].
      by rewrite Hloop.
Qed.

End Lifecycle.

(** ** More on insertion *)

Lemma insert_position_prefix_anchor (to_insert : Op) (before : OpPtr) (l : list Op)
    (j : nat) (c : Op) :
  l !! j = Some c -> (j < insert_position to_insert before l)%nat ->
  op_addr c <> before.
Proof.
  revert j. induction l as [|o l IH]; intros j Hj Hlt; simpl in *; [lia|].
  destruct (decide (op_addr o = before)) as [Heq|Hneq].
  { rewrite (bool_decide_eq_true_2 _ Heq) in Hlt. lia. }
  rewrite (bool_decide_eq_false_2 _ Hneq) in Hlt.
  destruct (consumes o to_insert); [lia|].
  destruct j as [|j]; simpl in Hj.
  - by inversion Hj; subst.
  - apply (IH j Hj). lia.
Qed.

Lemma insert_before_length (to_insert : Op) (before : OpPtr) (l : list Op) :
  length (insert_before to_insert before l) = S (length l).
Proof.
  induction l as [|o l IH]; simpl; [reflexivity|].
  destruct (bool_decide (op_addr o = before)); [reflexivity|].
  destruct (consumes o to_insert); [reflexivity|]. simpl. by rewrite IH.
Qed.

(** Wherever the new op lands, the list is one longer, and the anchor and
    every op that consumes one of the new op's outputs stand after it,
    each one place further than before. *)
Theorem insert_op_before_consumers (to_insert : Op) (before : OpPtr) (m : Model) :
  let k := insert_position to_insert before (ops m) in
  let result := ops (Model_insert_op to_insert before m) in
  result !! k = Some to_insert
  /\ length result = S (length (ops m))
  /\ forall (j : nat) (c : Op),
       ops m !! j = Some c ->
       consumes c to_insert = true \/ op_addr c = before ->
       (k <= j)%nat /\ result !! S j = Some c.
Proof.
  unfold Model_insert_op; simpl. generalize (ops m). clear m. intros l.
  set (k := insert_position to_insert before l).
  split; [|split].
  - rewrite insert_before_lookup. fold k.
    destruct (decide (k < k)%nat); [lia|]. by rewrite decide_True.
  - apply insert_before_length.
  - intros j c Hj Hc.
    assert (Hkj : (k <= j)%nat).
    { destruct (decide (k <= j)%nat) as [|Hn]; [done|]. exfalso.
      destruct Hc as [Hc|Hc].
      - rewrite (insert_position_prefix to_insert before l j c Hj) in Hc; [done|].
        fold k. lia.
      - apply (insert_position_prefix_anchor to_insert before l j c Hj); [|done].
        fold k. lia. }
    split; [exact Hkj|]. rewrite insert_before_lookup. fold k.
    destruct (decide (S j < k)%nat); [lia|].
    destruct (decide (S j = k)); [lia|]. simpl. by rewrite Nat.sub_0_r.
Qed.

(** Several ops inserted before the same anchor run in the order of the
    calls: the second is put between the first and the anchor. *)
Theorem insert_op_twice_keeps_call_order (n1 n2 : Op) (before : OpPtr)
    (l1 l2 : list Op) (E : Op) (m : Model) :
  ops m = l1 ++ E :: l2 ->
  op_addr E = before ->
  Forall (fun o => op_addr o <> before
                   /\ consumes o n1 = false /\ consumes o n2 = false) l1 ->
  op_addr n1 <> before ->
  consumes n1 n2 = false ->
  ops (Model_insert_op n2 before (Model_insert_op n1 before m))
  = l1 ++ n1 :: n2 :: E :: l2.
Proof.
  intros Hops HE Hl1 Hn1 Hc12. unfold Model_insert_op; simpl. rewrite Hops.
  rewrite insert_before_skip.
  2:{ eapply Forall_impl; [exact Hl1|]. by intros o (? & ? & ?). }
  simpl. rewrite (bool_decide_eq_true_2 _ HE).
  rewrite insert_before_skip.
  2:{ eapply Forall_impl; [exact Hl1|]. by intros o (? & ? & ?). }
  simpl. rewrite (bool_decide_eq_false_2 _ Hn1), Hc12.
  by rewrite (bool_decide_eq_true_2 _ HE).
Qed.

(** Several tensors inserted after the same anchor end up in the
    reverse of the order of the calls: the second is put between the
    anchor and the first. *)
Theorem insert_tensor_twice_reverses_call_order (x y after : TensorPtr) (m : Model) :
  after ∈ tensors m ->
  exists l1 l2,
    tensors m = l1 ++ after :: l2 /\ (after ∉ l1)
    /\ tensors (Model_insert_tensor y after (Model_insert_tensor x after m))
       = l1 ++ after :: y :: x :: l2.
Proof.
  intros Hin. apply list_elem_of_split_l in Hin as (l1 & l2 & Heq & Hnin).
  exists l1, l2. split; [exact Heq|]. split; [exact Hnin|].
  unfold Model_insert_tensor; simpl. rewrite Heq.
  rewrite insert_after_skip by exact Hnin. simpl.
  rewrite bool_decide_eq_true_2 by done.
  rewrite insert_after_skip by exact Hnin. simpl.
  by rewrite bool_decide_eq_true_2.
Qed.

(** ** More on copying a model *)

Section CopyMore.
Context {QuantizationInfo : Type}.
Implicit Types (h : Heap QuantizationInfo) (t : Tensor QuantizationInfo).

Lemma clone_tensors_more (ts : list TensorPtr) :
  forall h (map : TensorMap),
    Forall (fun p => is_Some (tensors_h h !! p)) ts ->
    (forall q x, map !! q = Some x -> (x < length (tensors_h h))%nat) ->
    exists (ts' : list TensorPtr) (map' : TensorMap) (new : list (Tensor QuantizationInfo)),
      clone_tensors ts map h
      = Done ((ts', map'),
              {| tensors_h := tensors_h h ++ new; storages_h := storages_h h;
                 data_h := data_h h; ops_h := ops_h h |})
      /\ (forall x, x ∈ ts' -> x ∈ ts \/ (length (tensors_h h) <= x)%nat)
      /\ (NoDup ts -> NoDup ts')
      /\ (forall q x, map' !! q = Some x ->
            map !! q = Some x \/ (length (tensors_h h) <= x)%nat)
      /\ (forall q1 q2 x, map' !! q1 = Some x -> map' !! q2 = Some x ->
            (length (tensors_h h) <= x)%nat -> q1 = q2)
      /\ (Forall (allocated_in h) ts -> ts' = ts /\ map' = map /\ new = []).
Proof.
  induction ts as [|i rest IH]; intros h map Hvalid Hmap.
  - exists [], map, []. simpl. unfold ret. rewrite app_nil_r.
    split; [by destruct h|]. split; [by left|]. split; [done|]. split; [by left|].
    split; [|done]. intros q1 q2 x H1 _ Hx. apply Hmap in H1. lia.
  - apply Forall_cons in Hvalid as [[ti Hi] Hvalid].
    pose proof (lookup_lt_Some _ _ _ Hi) as Hlti.
    cbn [clone_tensors]. unfold bind at 1. rewrite (load_tensor_eq _ _ _ Hi).
    destruct (Tensor_is_allocated ti) eqn:Hal; cbn [negb].
    + destruct (IH h map Hvalid Hmap)
        as (ts' & map' & new & Hrun & Hmem & Hnd & Hval & Hinj & Hconst).
      exists (i :: ts'), map', new. unfold bind. rewrite Hrun. simpl. unfold ret.
      split; [done|]. split; [|split; [|split; [done|split; [done|]]]].
      * intros x Hx. apply elem_of_cons in Hx as [->|Hx]; [left; by left|].
        destruct (Hmem x Hx) as [?|?]; [left; by right | by right].
      * intros Hnd0. apply NoDup_cons in Hnd0 as [Hni Hnd0].
        apply NoDup_cons. split; [|by apply Hnd].
        intros Hin. destruct (Hmem i Hin) as [?|?]; [done | lia].
      * intros Hall. apply Forall_cons in Hall as [_ Hall].
        destruct (Hconst Hall) as (-> & -> & ->). done.
    + set (cloned := length (tensors_h h)).
      set (h1 := {| tensors_h := tensors_h h ++ [Tensor_copy ti];
                    storages_h := storages_h h; data_h := data_h h; ops_h := ops_h h |}).
      assert (Hlen1 : length (tensors_h h1) = S cloned).
      { simpl. rewrite length_app. simpl. unfold cloned. lia. }
      assert (Hvalid1 : Forall (fun p => is_Some (tensors_h h1 !! p)) rest).
      { eapply Forall_impl; [exact Hvalid|]. intros p [t Hp]. exists t.
        simpl. by apply lookup_app_l_Some. }
      assert (Hmap1 : forall q x, <[i := cloned]> map !! q = Some x ->
                                  (x < length (tensors_h h1))%nat).
      { intros q x Hq. rewrite Hlen1. destruct (decide (i = q)) as [->|Hne].
        - rewrite lookup_insert_eq in Hq. inversion Hq. lia.
        - rewrite lookup_insert_ne in Hq by done. apply Hmap in Hq. fold cloned in Hq. lia. }
      destruct (IH h1 (<[i := cloned]> map) Hvalid1 Hmap1)
        as (ts' & map' & new & Hrun & Hmem & Hnd & Hval & Hinj & Hconst).
      rewrite Hlen1 in Hmem, Hval, Hinj.
      exists (cloned :: ts'), map', (Tensor_copy ti :: new).
      unfold bind at 1. unfold new_tensor at 1. fold cloned. fold h1.
      unfold bind. rewrite Hrun. simpl. unfold ret.
      rewrite <- app_assoc. simpl.
      split; [done|]. fold cloned.
      assert (Hrest_lt : forall x, x ∈ rest -> (x < cloned)%nat).
      { intros x Hx. destruct (proj1 (Forall_forall _ _) Hvalid x Hx) as [t Ht].
        by apply lookup_lt_Some in Ht. }
      assert (Hval' : forall q x, map' !! q = Some x ->
                        map !! q = Some x \/ (q = i /\ x = cloned) \/ (S cloned <= x)%nat).
      { intros q x Hq. destruct (Hval q x Hq) as [Hold|Hnew]; [|by right; right].
        destruct (decide (i = q)) as [->|Hne].
        - rewrite lookup_insert_eq in Hold. inversion Hold. right. by left.
        - rewrite lookup_insert_ne in Hold by done. by left. }
      split; [|split; [|split; [|split]]].
      * intros x Hx. apply elem_of_cons in Hx as [->|Hx]; [right; lia|].
        destruct (Hmem x Hx) as [?|?]; [left; by right | right; lia].
      * intros Hnd0. apply NoDup_cons in Hnd0 as [Hni Hnd0].
        apply NoDup_cons. split; [|by apply Hnd].
        intros Hin. destruct (Hmem cloned Hin) as [Hin'|?]; [|lia].
        apply Hrest_lt in Hin'. lia.
      * intros q x Hq. destruct (Hval' q x Hq) as [?|[[_ ->]|?]]; [by left| |]; right; lia.
      * intros q1 q2 x H1 H2 Hx.
        destruct (Hval' q1 x H1) as [Hold1|[[-> ->]|Hbig1]].
        { apply Hmap in Hold1. fold cloned in Hold1. lia. }
        -- destruct (Hval' q2 cloned H2) as [Hold2|[[-> _]|Hbig2]]; [|done|lia].
           apply Hmap in Hold2. fold cloned in Hold2. lia.
        -- by apply (Hinj q1 q2 x).
      * intros Hall. apply Forall_cons in Hall as [(t & Ht & Htal) _].
        rewrite Hi in Ht. inversion Ht; subst. congruence.
Qed.

Lemma apply_empty_fmap (l : list TensorPtr) : apply ∅ <$> l = l.
Proof.
  induction l as [|q l IH]; [reflexivity|].
  rewrite fmap_cons, IH. unfold apply. by rewrite lookup_empty.
Qed.

(** A model whose tensors all have data is copied without a single new
    tensor: the copy holds the very same tensor pointers, its ops refer
    to the very same tensors, and tensors, storages and allocations of
    the store are as they were. *)
Theorem Model_copy_of_constants h (m : Model) :
  Forall (allocated_in h) (tensors m) ->
  exists (m' : Model) h',
    Model_copy m h = Done (m', h')
    /\ tensors m' = tensors m
    /\ tensors_h h' = tensors_h h
    /\ storages_h h' = storages_h h
    /\ data_h h' = data_h h
    /\ Forall2 (fun o o' => inputs o' = inputs o /\ outputs o' = outputs o)
               (ops m) (ops m').
Proof.
  intros Hall.
  assert (Hvalid : Forall (fun p => is_Some (tensors_h h !! p)) (tensors m)).
  { eapply Forall_impl; [exact Hall|]. intros p (t & Ht & _). by exists t. }
  destruct (clone_tensors_more (tensors m) h ∅ Hvalid)
    as (ts' & map' & new & Hrun & _ & _ & _ & _ & Hconst).
  { intros q x Hq. by rewrite lookup_empty in Hq. }
  destruct (Hconst Hall) as (-> & -> & ->).
  rewrite app_nil_r in Hrun.
  set (h1 := {| tensors_h := tensors_h h; storages_h := storages_h h;
                data_h := data_h h; ops_h := ops_h h |}) in Hrun.
  destruct (clone_ops_spec ∅ (ops m) h1) as (os' & Hops & Hrel).
  eexists {| tensors := tensors m; ops := os' |}, _. split.
  { unfold Model_copy, bind. rewrite Hrun. simpl.
    unfold bind in Hops. rewrite Hops. reflexivity. }
  simpl. repeat split; try done.
  eapply Forall2_impl; [exact Hrel|]. intros o o' [Hin Hout].
  by rewrite Hin, Hout, !apply_empty_fmap.
Qed.

(** The copy of a model without repeated tensors has no repeated
    tensors either, and each of its tensors is either one of the
    original's or stands at an address that was free before. *)
Theorem Model_copy_NoDup h (m : Model) :
  Forall (fun p => is_Some (tensors_h h !! p)) (tensors m) ->
  NoDup (tensors m) ->
  exists (m' : Model) h',
    Model_copy m h = Done (m', h')
    /\ NoDup (tensors m')
    /\ forall x, x ∈ tensors m' -> x ∈ tensors m \/ tensors_h h !! x = None.
Proof.
  intros Hvalid Hnd.
  destruct (clone_tensors_more (tensors m) h ∅ Hvalid)
    as (ts' & map' & new & Hrun & Hmem & Hnd' & _).
  { intros q x Hq. by rewrite lookup_empty in Hq. }
  set (h1 := {| tensors_h := tensors_h h ++ new; storages_h := storages_h h;
                data_h := data_h h; ops_h := ops_h h |}) in Hrun.
  destruct (clone_ops_spec map' (ops m) h1) as (os' & Hops & _).
  eexists {| tensors := ts'; ops := os' |}, _. split.
  { unfold Model_copy, bind. rewrite Hrun. simpl.
    unfold bind in Hops. rewrite Hops. reflexivity. }
  simpl. split; [by apply Hnd'|].
  intros x Hx. destruct (Hmem x Hx) as [?|?]; [by left|].
  right. by apply lookup_ge_None_2.
Qed.

Lemma existsb_fmap {A B : Type} (f : A -> B) (g : B -> bool) (l : list A) :
  existsb g (f <$> l) = existsb (fun a => g (f a)) l.
Proof. induction l as [|a l IH]; [reflexivity|]. rewrite fmap_cons. simpl. by rewrite IH. Qed.

Lemma existsb_ext_in {A : Type} (f g : A -> bool) (l : list A) :
  (forall a, a ∈ l -> f a = g a) -> existsb f l = existsb g l.
Proof.
  induction l as [|a l IH]; intros Hfg; [reflexivity|]. simpl.
  rewrite Hfg by (by left). rewrite IH; [reflexivity|].
  intros b Hb. apply Hfg. by right.
Qed.

(** Renaming tensors one-to-one does not change who consumes whom. *)
Lemma consumes_renamed (f : TensorPtr -> TensorPtr) (c p c' p' : Op) :
  inputs c' = f <$> inputs c ->
  outputs p' = f <$> outputs p ->
  (forall q1 q2, q1 ∈ inputs c -> q2 ∈ outputs p -> f q1 = f q2 -> q1 = q2) ->
  consumes c' p' = consumes c p.
Proof.
  intros Hin Hout Hinj. unfold consumes. rewrite Hin, Hout, existsb_fmap.
  apply existsb_ext_in. intros out Hout_in. rewrite existsb_fmap.
  apply existsb_ext_in. intros inp Hinp_in.
  destruct (decide (inp = out)) as [->|Hne].
  - by rewrite !bool_decide_eq_true_2.
  - rewrite (bool_decide_eq_false_2 _ Hne). apply bool_decide_eq_false_2.
    intros Heq. apply Hne. by apply Hinj.
Qed.

(** The copy is as executable as the original: for a model whose ops
    refer to tensors of the store, an op of the copy consumes an output
    of another exactly when the ops at their positions in the original
    do, so the copy's op list is in topological order if and only if the
    original's is. *)
Theorem Model_copy_preserves_topological h (m : Model) :
  Forall (fun p => is_Some (tensors_h h !! p)) (tensors m) ->
  Forall (op_in_store h) (ops m) ->
  exists (m' : Model) h',
    Model_copy m h = Done (m', h')
    /\ length (ops m') = length (ops m)
    /\ (forall i j c p c' p',
          ops m !! i = Some c -> ops m !! j = Some p ->
          ops m' !! i = Some c' -> ops m' !! j = Some p' ->
          consumes c' p' = consumes c p)
    /\ (topological (ops m) <-> topological (ops m')).
Proof.
  intros Hvalid Hstore.
  destruct (clone_tensors_more (tensors m) h ∅ Hvalid)
    as (ts' & map' & new & Hrun & _ & _ & Hval & Hinj & _).
  { intros q x Hq. by rewrite lookup_empty in Hq. }
  set (h1 := {| tensors_h := tensors_h h ++ new; storages_h := storages_h h;
                data_h := data_h h; ops_h := ops_h h |}) in Hrun.
  destruct (clone_ops_spec map' (ops m) h1) as (os' & Hops & Hrel).
  assert (Happ : forall q1 q2, (q1 < length (tensors_h h))%nat ->
                   (q2 < length (tensors_h h))%nat ->
                   apply map' q1 = apply map' q2 -> q1 = q2).
  { intros q1 q2 H1 H2. unfold apply.
    destruct (map' !! q1) as [x1|] eqn:E1, (map' !! q2) as [x2|] eqn:E2; intros Heq; subst.
    - destruct (Hval _ _ E1) as [Hold|Hnew]; [by rewrite lookup_empty in Hold|].
      by apply (Hinj q1 q2 x2).
    - destruct (Hval _ _ E1) as [Hold|Hnew]; [by rewrite lookup_empty in Hold | lia].
    - destruct (Hval _ _ E2) as [Hold|Hnew]; [by rewrite lookup_empty in Hold | lia].
    - reflexivity. }
  assert (Hcons : forall i j c p c' p',
            ops m !! i = Some c -> ops m !! j = Some p ->
            os' !! i = Some c' -> os' !! j = Some p' ->
            consumes c' p' = consumes c p).
  { intros i j c p c' p' Hc Hp Hc' Hp'.
    destruct (Forall2_lookup_lr _ _ _ _ _ _ Hrel Hc Hc') as [Hin _].
    destruct (Forall2_lookup_lr _ _ _ _ _ _ Hrel Hp Hp') as [_ Hout].
    apply (consumes_renamed (apply map')); [done|done|].
    intros q1 q2 Hq1 Hq2.
    pose proof (proj1 (Forall_lookup _ _) Hstore i c Hc) as Hsc.
    pose proof (proj1 (Forall_lookup _ _) Hstore j p Hp) as Hsp.
    unfold op_in_store in *. rewrite Forall_app in Hsc, Hsp.
    apply Happ.
    - by apply (proj1 (Forall_forall _ _) (proj1 Hsc)).
    - by apply (proj1 (Forall_forall _ _) (proj2 Hsp)). }
  pose proof (Forall2_length _ _ _ Hrel) as Hlen.
  eexists {| tensors := ts'; ops := os' |}, _. split.
  { unfold Model_copy, bind. rewrite Hrun. simpl.
    unfold bind in Hops. rewrite Hops. reflexivity. }
  simpl. split; [done|]. split; [exact Hcons|]. split.
  - intros Htopo i j p' c' Hi Hj Hc.
    destruct (lookup_lt_is_Some_2 (ops m) i) as [p Hp].
    { rewrite Hlen. by apply lookup_lt_Some in Hi. }
    destruct (lookup_lt_is_Some_2 (ops m) j) as [c Hc0].
    { rewrite Hlen. by apply lookup_lt_Some in Hj. }
    apply (Htopo i j p c Hp Hc0). by rewrite <- (Hcons j i c p c' p').
  - intros Htopo i j p c Hi Hj Hc.
    destruct (lookup_lt_is_Some_2 os' i) as [p' Hp'].
    { rewrite <- Hlen. by apply lookup_lt_Some in Hi. }
    destruct (lookup_lt_is_Some_2 os' j) as [c' Hc'].
    { rewrite <- Hlen. by apply lookup_lt_Some in Hj. }
    apply (Htopo i j p' c' Hp' Hc'). by rewrite (Hcons j i c p c' p').
Qed.

End CopyMore.

(** ** Visiting the ops *)

Section AcceptProperties.
Context {State : Type} (get_ops : State -> list Op) (visit : Op -> State -> State).

Lemma Model_accept_from_steady (rest pre : list Op) (s : State) :
  (forall o s, get_ops (visit o s) = get_ops s) ->
  get_ops s = pre ++ rest ->
  Model_accept_from get_ops visit (S (length rest)) (length pre) s
  = Some (foldl (fun s o => visit o s) s rest).
Proof.
  intros Hsteady. revert pre s. induction rest as [|o rest IH]; intros pre s Hops.
  - simpl. rewrite Hops, app_nil_r. by rewrite bool_decide_eq_false_2 by lia.
  - cbn [Model_accept_from length foldl]. rewrite Hops.
    rewrite bool_decide_eq_true_2 by (rewrite length_app; simpl; lia).
    rewrite list_lookup_middle by reflexivity.
    replace (S (length pre)) with (length (pre ++ [o])) by (rewrite length_app; simpl; lia).
    apply IH. rewrite Hsteady, Hops. by rewrite <- app_assoc.
Qed.

Lemma Model_accept_from_more_fuel (fuel fuel' i : nat) (s s' : State) :
  Model_accept_from get_ops visit fuel i s = Some s' -> (fuel <= fuel')%nat ->
  Model_accept_from get_ops visit fuel' i s = Some s'.
Proof.
  revert fuel' i s. induction fuel as [|fuel IH]; intros fuel' i s Hrun Hle;
    [discriminate|].
  destruct fuel' as [|fuel']; [lia|]. simpl in *.
  destruct (bool_decide (i < length (get_ops s))%nat); [|done].
  destruct (get_ops s !! i); [|done]. apply IH; [done | lia].
Qed.

(** With a visitor that leaves the op list alone, the traversal ends
    after one step per op, having visited every op once, in list order;
    more fuel changes nothing. *)
Theorem Model_accept_visits_each_op_once (s : State) (fuel : nat) :
  (forall o s, get_ops (visit o s) = get_ops s) ->
  (length (get_ops s) < fuel)%nat ->
  Model_accept get_ops visit fuel s
  = Some (foldl (fun s o => visit o s) s (get_ops s)).
Proof.
  intros Hsteady Hfuel. unfold Model_accept.
  apply (Model_accept_from_more_fuel (S (length (get_ops s)))); [|lia].
  by apply (Model_accept_from_steady (get_ops s) []).
Qed.


Lemma Model_accept_from_count (fuel i : nat) (s s' : State) :
  (forall o s, (length (get_ops s) <= length (get_ops (visit o s)))%nat) ->
  (i <= length (get_ops s))%nat ->
  Model_accept_from get_ops visit fuel i s = Some s' ->
  (i <= length (get_ops s'))%nat
  /\ Model_accept_from get_ops visit (S (length (get_ops s') - i)) i s = Some s'
  /\ Model_accept_from get_ops visit (length (get_ops s') - i) i s = None.
Proof.
  intros Hmono. revert i s. induction fuel as [|fuel IH]; intros i s Hle Hrun;
    [discriminate|].
  simpl in Hrun.
  destruct (decide (i < length (get_ops s))%nat) as [Hi|Hi].
  - rewrite (bool_decide_eq_true_2 _ Hi) in Hrun.
    destruct (get_ops s !! i) as [o|] eqn:Ho; [|discriminate].
    destruct (IH (S i) (visit o s)) as (Hle' & Hok & Hnone); [|exact Hrun|].
    { specialize (Hmono o s). lia. }
    replace (length (get_ops s') - i)%nat with (S (length (get_ops s') - S i)) by lia.
    split; [lia|]. split.
    + cbn [Model_accept_from]. by rewrite (bool_decide_eq_true_2 _ Hi), Ho.
    + cbn [Model_accept_from]. by rewrite (bool_decide_eq_true_2 _ Hi), Ho.
  - rewrite (bool_decide_eq_false_2 _ Hi) in Hrun. inversion Hrun; subst.
    replace (length (get_ops s') - i)%nat with 0%nat by lia.
    split; [done|]. split; [|done].
    simpl. by rewrite (bool_decide_eq_false_2 _ Hi).
Qed.

(** With a visitor that never removes ops, a traversal that ends has
    made exactly as many visits as the op list has ops at the end: the
    ops inserted on the way are counted in. *)
Theorem Model_accept_visits_final_length (fuel : nat) (s s' : State) :
  (forall o s, (length (get_ops s) <= length (get_ops (visit o s)))%nat) ->
  Model_accept get_ops visit fuel s = Some s' ->
  Model_accept get_ops visit (S (length (get_ops s'))) s = Some s'
  /\ Model_accept get_ops visit (length (get_ops s')) s = None.
Proof.
  intros Hmono Hrun. unfold Model_accept in *.
  destruct (Model_accept_from_count fuel 0 s s' Hmono (Nat.le_0_l _) Hrun)
    as (_ & Hok & Hnone).
  by rewrite Nat.sub_0_r in Hok, Hnone.
Qed.

End AcceptProperties.

(** * The further properties at work on the examples *)

Lemma make_buffer_round_trip_witness :
  exists b d,
    make_buffer int8 [iv (-2) 7] 0%nat = Done (b, 1%nat)
    /\ Buffer.data b = Some 0%nat
    /\ Buffer.dim b !! 0%nat = Some d
    /\ Dim.min d = -2 /\ Dim.max d = 7 /\ Dim.extent d = 10.
Proof.
  destruct (make_buffer_round_trip int8 [iv (-2) 7] 0%nat)
    as (b & n' & Hrun & _ & _ & Hdim & Halloc & _).
  - repeat constructor; solve_in_int.
  - destruct Halloc as [Hdat ->]; [repeat constructor; vm_compute; discriminate|].
    destruct (Hdim 0%nat _ eq_refl) as (d & Hd & Hmin & Hmax & Hext).
    exists b, d. by repeat split.
Defined.

Lemma add_use_idempotent_witness :
  exists s1,
    TensorStorage.add_use int8 [iv 0 9]
      {| TensorStorage.buffer_ := unallocated int8 [iv (-2) 7] |} 0%nat = Done (s1, 0%nat)
    /\ TensorStorage.add_use int8 [iv 0 9] s1 0%nat = Done (s1, 0%nat).
Proof.
  eexists. split; [reflexivity|].
  apply (add_use_idempotent int8 [iv 0 9]
           {| TensorStorage.buffer_ := unallocated int8 [iv (-2) 7] |} _ 0%nat 0%nat).
  - discriminate.
  - repeat constructor; solve_in_int.
  - reflexivity.
Defined.

Lemma add_use_contained_noop_witness :
  TensorStorage.add_use int8 [iv 0 3]
    {| TensorStorage.buffer_ := unallocated int8 [iv (-2) 7] |} 0%nat
  = Done ({| TensorStorage.buffer_ := unallocated int8 [iv (-2) 7] |}, 0%nat).
Proof.
  apply add_use_contained_noop.
  - discriminate.
  - reflexivity.
  - reflexivity.
  - reflexivity.
  - unfold extents_in_int. simpl. repeat constructor; solve_in_int.
  - intros i x Hi. destruct i as [|i]; [|discriminate].
    inversion Hi; subst. eexists. split; [reflexivity|].
    split; vm_compute; discriminate.
Defined.

Lemma add_use_monotone_witness :
  exists s',
    TensorStorage.add_use int8 [iv 0 9]
      {| TensorStorage.buffer_ := unallocated int8 [iv (-2) 7] |} 0%nat = Done (s', 0%nat)
    /\ covers (TensorStorage.bounds s') [iv (-2) 7]
    /\ covers (TensorStorage.bounds s') [iv 0 9].
Proof.
  exists {| TensorStorage.buffer_ :=
              {| Buffer.type := int8;
                 Buffer.dim := [{| Dim.min := -2; Dim.extent := 12 |}];
                 Buffer.data := None |} |}.
  split; [reflexivity|].
  destruct (add_use_monotone int8 [iv 0 9]
              {| TensorStorage.buffer_ := unallocated int8 [iv (-2) 7] |}
              {| TensorStorage.buffer_ :=
                   {| Buffer.type := int8;
                      Buffer.dim := [{| Dim.min := -2; Dim.extent := 12 |}];
                      Buffer.data := None |} |} 0%nat 0%nat)
    as (Hold & Hnew & _).
  - discriminate.
  - repeat constructor; solve_in_int.
  - reflexivity.
  - split; [exact Hold | exact Hnew].
Defined.

Lemma Tensor_storage_stable_witness :
  exists h1 : Heap unit,
    Tensor_storage 1%nat ex_heap = Done (1%nat, h1)
    /\ Tensor_storage 1%nat h1 = Done (1%nat, h1).
Proof.
  eexists. split; [reflexivity|].
  apply (Tensor_storage_stable ex_heap 1%nat 1%nat). reflexivity.
Defined.

Lemma Tensor_allocate_allocates_witness :
  exists h' : Heap unit,
    Tensor_allocate 1%nat ex_heap = Done (tt, h')
    /\ Tensor_allocate 1%nat h' = Done (tt, h').
Proof.
  eexists. split.
  - by apply (Tensor_allocate_fresh ex_heap 1%nat ex_X).
  - apply (Tensor_allocate_allocates ex_heap 1%nat).
    by apply (Tensor_allocate_fresh ex_heap 1%nat ex_X).
Defined.

Lemma aliased_tensors_share_allocation_witness :
  exists (h' : Heap unit) ta' tb',
    bind (Tensor_set_alias_of 2%nat 1%nat)
      (fun _ => bind (Tensor_allocate 2%nat) (fun _ => Tensor_allocate 1%nat)) ex_heap
    = Done (tt, h')
    /\ tensors_h h' !! 2%nat = Some ta' /\ tensors_h h' !! 1%nat = Some tb'
    /\ Buffer.data (buffer_ ta') = Buffer.data (buffer_ tb').
Proof.
  destruct (aliased_tensors_share_allocation ex_heap 2%nat 1%nat ex_A ex_X)
    as (h' & ta' & tb' & Hrun & Ha & Hb & Hda & Hdb & _); try reflexivity.
  - discriminate.
  - exists h', ta', tb'. rewrite Hda, Hdb. by repeat split.
Defined.

Lemma separate_tensors_separate_allocations_witness :
  exists (h' : Heap unit) ta' tb',
    bind (Tensor_allocate 0%nat) (fun _ => Tensor_allocate 1%nat) ex_heap2 = Done (tt, h')
    /\ tensors_h h' !! 0%nat = Some ta' /\ tensors_h h' !! 1%nat = Some tb'
    /\ Buffer.data (buffer_ ta') = Some 0%nat
    /\ Buffer.data (buffer_ tb') = Some 1%nat.
Proof.
  destruct (separate_tensors_separate_allocations ex_heap2 0%nat 1%nat ex_X ex_Y)
    as (h' & ta' & tb' & pa & pb & Hrun & Ha & Hb & Hda & Hdb & _); try reflexivity.
  - discriminate.
  - by exists h', ta', tb'.
Defined.

Lemma alias_of_scalar_breaks_allocate_witness :
  exists h1 : Heap unit,
    Tensor_set_alias_of 0%nat 2%nat ex_heap2 = Done (tt, h1)
    /\ Tensor_allocate 2%nat h1 = Fail InvalidAccess.
Proof.
  destruct (alias_of_scalar_breaks_allocate ex_heap2 0%nat 2%nat ex_X ex_S)
    as (h1 & p & Hrun & _ & _ & _ & Hfail); try reflexivity.
  - discriminate.
  - discriminate.
  - by exists h1.
Defined.

Lemma insert_op_before_consumers_witness :
  ops (Model_insert_op ex_new1 3%nat ex_model) !! 2%nat = Some ex_op2
  /\ ops (Model_insert_op ex_new1 3%nat ex_model) !! 3%nat = Some ex_op3.
Proof.
  destruct (insert_op_before_consumers ex_new1 3%nat ex_model) as (_ & _ & Hafter).
  split.
  - apply (Hafter 1%nat ex_op2 eq_refl). by left.
  - apply (Hafter 2%nat ex_op3 eq_refl). by right.
Defined.

Lemma insert_op_twice_keeps_call_order_witness :
  ops (Model_insert_op ex_new3 3%nat (Model_insert_op ex_new2 3%nat ex_model))
  = [ex_op1; ex_op2; ex_new2; ex_new3; ex_op3].
Proof.
  apply (insert_op_twice_keeps_call_order ex_new2 ex_new3 3%nat
           [ex_op1; ex_op2] [] ex_op3 ex_model).
  - reflexivity.
  - reflexivity.
  - repeat constructor; discriminate.
  - discriminate.
  - reflexivity.
Defined.

Lemma insert_tensor_twice_reverses_call_order_witness :
  exists l1 l2,
    tensors ex_model = l1 ++ 1%nat :: l2
    /\ tensors (Model_insert_tensor 8%nat 1%nat (Model_insert_tensor 7%nat 1%nat ex_model))
       = l1 ++ 1%nat :: 8%nat :: 7%nat :: l2.
Proof.
  destruct (insert_tensor_twice_reverses_call_order 7%nat 8%nat 1%nat ex_model)
    as (l1 & l2 & Heq & _ & Hres).
  - apply list_elem_of_In. simpl. lia.
  - by exists l1, l2.
Defined.

Lemma Model_copy_of_constants_witness :
  exists (m' : Model) (h' : Heap unit),
    Model_copy ex_const_model ex_heap = Done (m', h')
    /\ tensors m' = [0%nat] /\ tensors_h h' = tensors_h ex_heap.
Proof.
  destruct (Model_copy_of_constants ex_heap ex_const_model)
    as (m' & h' & Hrun & Hts & Hth & _).
  - repeat constructor. exists ex_W. by split.
  - by exists m', h'.
Defined.

Lemma Model_copy_NoDup_witness :
  exists (m' : Model) (h' : Heap unit),
    Model_copy ex_model ex_heap = Done (m', h') /\ NoDup (tensors m').
Proof.
  destruct (Model_copy_NoDup ex_heap ex_model) as (m' & h' & Hrun & Hnd & _).
  - repeat constructor; by eexists.
  - simpl. repeat constructor; intros Hin; apply list_elem_of_In in Hin; simpl in Hin; lia.
  - by exists m', h'.
Defined.

Lemma Model_copy_preserves_topological_witness :
  exists (m' : Model) (h' : Heap unit),
    Model_copy ex_chain_model ex_heap = Done (m', h')
    /\ (topological (ops ex_chain_model) <-> topological (ops m')).
Proof.
  destruct (Model_copy_preserves_topological ex_heap ex_chain_model)
    as (m' & h' & Hrun & _ & _ & Hiff).
  - repeat constructor; by eexists.
  - unfold op_in_store. simpl. repeat constructor.
  - by exists m', h'.
Defined.

Lemma Model_accept_visits_each_op_once_witness :
  Model_accept (fun s : Model * nat => ops s.1) ex_count_visit 4 (ex_model, 0%nat)
  = Some (ex_model, 3%nat).
Proof.
  apply (Model_accept_visits_each_op_once (fun s : Model * nat => ops s.1)
           ex_count_visit (ex_model, 0%nat) 4).
  - reflexivity.
  - simpl. lia.
Defined.


Lemma Model_accept_visits_final_length_witness :
  Model_accept (fun s : Model * nat => ops s.1) ex_count_visit 4 (ex_model, 0%nat)
  = Some (ex_model, 3%nat)
  /\ Model_accept (fun s : Model * nat => ops s.1) ex_count_visit 3 (ex_model, 0%nat)
     = None.
Proof.
  apply (Model_accept_visits_final_length (fun s : Model * nat => ops s.1)
           ex_count_visit 10 (ex_model, 0%nat) (ex_model, 3%nat)).
  - intros o s. simpl. lia.
  - reflexivity.
Defined.

Lemma add_uses_union_witness :
  exists s',
    add_uses int8 [[iv 0 9]; [iv (-5) 3]]
      {| TensorStorage.buffer_ := unallocated int8 [iv (-2) 7] |} 0%nat
    = Done (s', 0%nat)
    /\ TensorStorage.bounds s' !! 0%nat = Some (iv (-5) 9).
Proof.
  destruct (add_uses_union int8 1
              {| TensorStorage.buffer_ := unallocated int8 [iv (-2) 7] |}
              [[iv 0 9]; [iv (-5) 3]] 0%nat)
    as (s' & Hrun & _ & Hb & _).
  - discriminate.
  - reflexivity.
  - reflexivity.
  - reflexivity.
  - repeat constructor; solve_in_int.
  - exists s'. split; [exact Hrun|]. exact (Hb 0%nat (iv (-2) 7) eq_refl).
Defined.

Lemma add_use_commutes_witness :
  add_uses int8 [[iv 0 9]; [iv (-5) 3]]
    {| TensorStorage.buffer_ := unallocated int8 [iv (-2) 7] |} 0%nat
  = add_uses int8 [[iv (-5) 3]; [iv 0 9]]
      {| TensorStorage.buffer_ := unallocated int8 [iv (-2) 7] |} 0%nat.
Proof.
  apply add_use_commutes.
  - discriminate.
  - repeat constructor; solve_in_int.
  - repeat constructor; solve_in_int.
Defined.
